(** * OBJ writer of forge-convert-utils: a shallow embedding

    The development follows [src/obj/writer.ts] (class [Writer]): the
    transform resolver [nodeTransform], the unit table [getRootScale], the
    classifier [getObjectNodes], the streaming writer [writeObjects] and the
    orchestrator [write].

    Conventions of the embedding:
    - a JavaScript [number] holding a coordinate is an exact rational ([Q]);
      IEEE rounding, infinities and NaN of doubles are outside the model;
    - a JavaScript [number] holding a count or an index is a natural number
      ([N]), a [dbid] is an integer ([Z]);
    - a JavaScript object used as a dictionary is a [gmap string _];
    - a JavaScript [Map] is an association list in insertion order;
    - the log callback, the output file and the local variables of
      [writeObjects] are fields of an explicit state. *)

From Stdlib Require Import ZArith NArith QArith Qround Qabs String Ascii List DecimalString Lia Lqa.
From stdpp Require Import base gmap strings list.

Open Scope string_scope.
Open Scope list_scope.

(** ** JavaScript runtime *)

Module JS.

(** The line separator of the output. *)
Definition LF : string := String (ascii_of_nat 10) "".

(** [Array.prototype.join] with separator [sep]. *)
Definition join (sep : string) (ls : list string) : string := String.concat sep ls.

(** Template-literal rendering of an integral number. *)
Definition N_toString (n : N) : string := NilEmpty.string_of_uint (N.to_uint n).
Definition Z_toString (z : Z) : string := NilEmpty.string_of_int (Z.to_int z).

Definition digit (z : Z) : ascii := ascii_of_nat (48 + Z.to_nat z).

(** Fractional digits of [r / d] (with [0 <= r < d]), stopping at the last
    non-zero digit. *)
Fixpoint frac_digits (fuel : nat) (r d : Z) : string :=
  match fuel with
  | O => ""
  | S fuel' =>
      if (r =? 0)%Z then ""
      else String (digit (r * 10 / d)) (frac_digits fuel' ((r * 10) mod d) d)
  end.

(** Template-literal rendering of a number: the decimal expansion, without
    exponent and without trailing zeros, as JavaScript prints the values
    produced by [myFixed4] and [myFixed2] (multiples of 10^-4 and 10^-2). *)
Definition Number_toString (q : Q) : string :=
  let n := Qnum q in
  let d := Z.pos (Qden q) in
  let a := Z.abs n in
  let frac := frac_digits 20 (a mod d) d in
  (if (n <? 0)%Z then "-" else "") +:+ Z_toString (a / d) +:+
  (if String.eqb frac "" then "" else "." +:+ frac).

(** [Math.round]: the nearest integer, ties towards +infinity. *)
Definition Math_round (x : Q) : Q := inject_Z (Qfloor (x + (1 # 2))%Q).

(** [Math.sqrt], exact on squares of rationals and truncated at 10^-20
    otherwise. *)
Definition Math_sqrt (x : Q) : Q :=
  let s := (10 ^ 20)%Z in
  Qdiv (inject_Z (Z.sqrt (Qnum x * Z.pos (Qden x) * s * s)))
       (inject_Z (Z.pos (Qden x) * s)).

End JS.

(** ** three.js: the part of [Vector3], [Quaternion] and [Matrix4] the writer calls *)

Module THREE.

Local Open Scope Q_scope.

Record Vector3 := mkVector3 { vx : Q; vy : Q; vz : Q }.
Record Quaternion := mkQuaternion { qx : Q; qy : Q; qz : Q; qw : Q }.

(** [Matrix4.elements]: sixteen numbers stored column by column; [te_i] is
    [elements[i]], so column [c] is [elements[4c .. 4c+3]] and row [r] is
    [elements[r], elements[r+4], elements[r+8], elements[r+12]]. *)
Record Matrix4 := mkMatrix4 {
  te0 : Q; te1 : Q; te2 : Q; te3 : Q;
  te4 : Q; te5 : Q; te6 : Q; te7 : Q;
  te8 : Q; te9 : Q; te10 : Q; te11 : Q;
  te12 : Q; te13 : Q; te14 : Q; te15 : Q }.

Definition elements (m : Matrix4) : list Q :=
  [te0 m; te1 m; te2 m; te3 m; te4 m; te5 m; te6 m; te7 m;
   te8 m; te9 m; te10 m; te11 m; te12 m; te13 m; te14 m; te15 m].

Definition column (m : Matrix4) (c : nat) : list Q :=
  take 4 (drop (4 * c)%nat (elements m)).

Definition row (m : Matrix4) (r : nat) : list Q :=
  let e := elements m in
  [nth r e 0; nth (r + 4)%nat e 0; nth (r + 8)%nat e 0; nth (r + 12)%nat e 0].

(** [new Matrix4().identity()]. *)
Definition identity : Matrix4 :=
  mkMatrix4 1 0 0 0  0 1 0 0  0 0 1 0  0 0 0 1.

(** [Matrix4.set(n11, n12, n13, n14, n21, ..., n44)]: the arguments come row
    by row, the storage is column by column. *)
Definition set (n11 n12 n13 n14 n21 n22 n23 n24 n31 n32 n33 n34 n41 n42 n43 n44 : Q)
  : Matrix4 :=
  {| te0 := n11; te4 := n12; te8 := n13; te12 := n14;
     te1 := n21; te5 := n22; te9 := n23; te13 := n24;
     te2 := n31; te6 := n32; te10 := n33; te14 := n34;
     te3 := n41; te7 := n42; te11 := n43; te15 := n44 |}.

(** [Matrix4.compose(position, quaternion, scale)]. *)
Definition compose (position : Vector3) (quaternion : Quaternion) (scale : Vector3)
  : Matrix4 :=
  let x := qx quaternion in let y := qy quaternion in
  let z := qz quaternion in let w := qw quaternion in
  let x2 := x + x in let y2 := y + y in let z2 := z + z in
  let xx := x * x2 in let xy := x * y2 in let xz := x * z2 in
  let yy := y * y2 in let yz := y * z2 in let zz := z * z2 in
  let wx := w * x2 in let wy := w * y2 in let wz := w * z2 in
  let sx := vx scale in let sy := vy scale in let sz := vz scale in
  {| te0 := (1 - (yy + zz)) * sx;
     te1 := (xy + wz) * sx;
     te2 := (xz - wy) * sx;
     te3 := 0;
     te4 := (xy - wz) * sy;
     te5 := (1 - (xx + zz)) * sy;
     te6 := (yz + wx) * sy;
     te7 := 0;
     te8 := (xz + wy) * sz;
     te9 := (yz - wx) * sz;
     te10 := (1 - (xx + yy)) * sz;
     te11 := 0;
     te12 := vx position;
     te13 := vy position;
     te14 := vz position;
     te15 := 1 |}.

(** [Matrix4.makeRotationFromQuaternion(q)] is [compose(zero, q, one)]. *)
Definition makeRotationFromQuaternion (q : Quaternion) : Matrix4 :=
  compose (mkVector3 0 0 0) q (mkVector3 1 1 1).

(** [Matrix4.scale(v)] multiplies the first three columns by [v.x], [v.y], [v.z]. *)
Definition scale (m : Matrix4) (v : Vector3) : Matrix4 :=
  let x := vx v in let y := vy v in let z := vz v in
  {| te0 := te0 m * x; te4 := te4 m * y; te8 := te8 m * z;
     te1 := te1 m * x; te5 := te5 m * y; te9 := te9 m * z;
     te2 := te2 m * x; te6 := te6 m * y; te10 := te10 m * z;
     te3 := te3 m * x; te7 := te7 m * y; te11 := te11 m * z;
     te12 := te12 m; te13 := te13 m; te14 := te14 m; te15 := te15 m |}.

(** [Matrix4.setPosition(x, y, z)] overwrites [elements[12..14]]. *)
Definition setPosition (m : Matrix4) (x y z : Q) : Matrix4 :=
  {| te0 := te0 m; te1 := te1 m; te2 := te2 m; te3 := te3 m;
     te4 := te4 m; te5 := te5 m; te6 := te6 m; te7 := te7 m;
     te8 := te8 m; te9 := te9 m; te10 := te10 m; te11 := te11 m;
     te12 := x; te13 := y; te14 := z; te15 := te15 m |}.

(** [Vector3.length()]. *)
Definition length (v : Vector3) : Q :=
  JS.Math_sqrt (vx v * vx v + vy v * vy v + vz v * vz v).

(** [Vector3.setFromMatrixColumn(m, index)] for the first three columns. *)
Definition column0 (m : Matrix4) : Vector3 := mkVector3 (te0 m) (te1 m) (te2 m).
Definition column1 (m : Matrix4) : Vector3 := mkVector3 (te4 m) (te5 m) (te6 m).
Definition column2 (m : Matrix4) : Vector3 := mkVector3 (te8 m) (te9 m) (te10 m).

(** [new Matrix4().extractRotation(m)]: the upper 3x3 block of [m] with each
    column divided by its length. *)
Definition extractRotation (m : Matrix4) : Matrix4 :=
  let scaleX := 1 / length (column0 m) in
  let scaleY := 1 / length (column1 m) in
  let scaleZ := 1 / length (column2 m) in
  {| te0 := te0 m * scaleX; te1 := te1 m * scaleX; te2 := te2 m * scaleX; te3 := 0;
     te4 := te4 m * scaleY; te5 := te5 m * scaleY; te6 := te6 m * scaleY; te7 := 0;
     te8 := te8 m * scaleZ; te9 := te9 m * scaleZ; te10 := te10 m * scaleZ; te11 := 0;
     te12 := 0; te13 := 0; te14 := 0; te15 := 1 |}.

(** [Vector3.applyMatrix4(m)]. *)
Definition applyMatrix4 (v : Vector3) (m : Matrix4) : Vector3 :=
  let x := vx v in let y := vy v in let z := vz v in
  let w := 1 / (te3 m * x + te7 m * y + te11 m * z + te15 m) in
  {| vx := (te0 m * x + te4 m * y + te8 m * z + te12 m) * w;
     vy := (te1 m * x + te5 m * y + te9 m * z + te13 m) * w;
     vz := (te2 m * x + te6 m * y + te10 m * z + te14 m) * w |}.

(** [Vector3.multiplyScalar(s)]. *)
Definition multiplyScalar (v : Vector3) (s : Q) : Vector3 :=
  {| vx := vx v * s; vy := vy v * s; vz := vz v * s |}.

(** [Matrix4.multiplyMatrices(a, b)]: the product [a * b]. *)
Definition multiply (a b : Matrix4) : Matrix4 :=
  {| te0 := te0 a * te0 b + te4 a * te1 b + te8 a * te2 b + te12 a * te3 b;
     te1 := te1 a * te0 b + te5 a * te1 b + te9 a * te2 b + te13 a * te3 b;
     te2 := te2 a * te0 b + te6 a * te1 b + te10 a * te2 b + te14 a * te3 b;
     te3 := te3 a * te0 b + te7 a * te1 b + te11 a * te2 b + te15 a * te3 b;
     te4 := te0 a * te4 b + te4 a * te5 b + te8 a * te6 b + te12 a * te7 b;
     te5 := te1 a * te4 b + te5 a * te5 b + te9 a * te6 b + te13 a * te7 b;
     te6 := te2 a * te4 b + te6 a * te5 b + te10 a * te6 b + te14 a * te7 b;
     te7 := te3 a * te4 b + te7 a * te5 b + te11 a * te6 b + te15 a * te7 b;
     te8 := te0 a * te8 b + te4 a * te9 b + te8 a * te10 b + te12 a * te11 b;
     te9 := te1 a * te8 b + te5 a * te9 b + te9 a * te10 b + te13 a * te11 b;
     te10 := te2 a * te8 b + te6 a * te9 b + te10 a * te10 b + te14 a * te11 b;
     te11 := te3 a * te8 b + te7 a * te9 b + te11 a * te10 b + te15 a * te11 b;
     te12 := te0 a * te12 b + te4 a * te13 b + te8 a * te14 b + te12 a * te15 b;
     te13 := te1 a * te12 b + te5 a * te13 b + te9 a * te14 b + te13 a * te15 b;
     te14 := te2 a * te12 b + te6 a * te13 b + te10 a * te14 b + te14 a * te15 b;
     te15 := te3 a * te12 b + te7 a * te13 b + te11 a * te14 b + te15 a * te15 b |}.

(** [Matrix4.makeTranslation(x, y, z)] and [Matrix4.makeScale(x, y, z)]. *)
Definition makeTranslation (x y z : Q) : Matrix4 :=
  set 1 0 0 x  0 1 0 y  0 0 1 z  0 0 0 1.

Definition makeScale (x y z : Q) : Matrix4 :=
  set x 0 0 0  0 y 0 0  0 0 z 0  0 0 0 1.

(** Entrywise equality of the rational values. *)
Definition Meq (a b : Matrix4) : Prop := Forall2 Qeq (elements a) (elements b).

End THREE.

(** ** The intermediate format consumed by the writer *)

Module IMF.

(** Modelled from the spec: the declarations of [common/intermediate-format]
    (section 3 of the specification, and the members the writer reads).
    A node or geometry of a kind the writer does not handle carries only the
    rendering of its discriminant, the one thing the writer reads of it. *)
Definition NodeID := nat.
Definition GeometryID := nat.

Record IVec3 := mkVec3 { x : Q; y : Q; z : Q }.
Record IQuaternion := mkQuat { rx : Q; ry : Q; rz : Q; rw : Q }.

Inductive Transform :=
| MatrixTransform (elements : list Q)
| DecomposedTransform (translation : option IVec3) (rotation : option IQuaternion)
                      (scale : option IVec3).

Record IObjectNode := mkObjectNode {
  dbid : Z;
  transform : option Transform;
  geometry : GeometryID }.

Inductive Node :=
| ObjectNode (node : IObjectNode)
| OtherNode (kind : string).

(** Typed arrays: [getIndices] is unsigned, [getVertices] and [getNormals]
    are flat sequences of coordinates. *)
Record IMeshGeometry := mkMesh {
  getIndices : list N;
  getVertices : list Q;
  getNormals : option (list Q) }.

Inductive Geometry :=
| MeshGeometry (mesh : IMeshGeometry)
| OtherGeometry (kind : string).

(** A metadata entry; only its [value] is read. *)
Record MetadataEntry := mkEntry { value : string }.

Record IScene := mkScene {
  getNodeCount : nat;
  getNode : NodeID -> Node;
  getGeometry : GeometryID -> Geometry;
  getMetadata : gmap string MetadataEntry }.

End IMF.

(** Modelled from the spec: the two queries of [common/propdb-reader]
    (section 6 of the specification). *)
Record PropDbReader := mkPropDb {
  getProperties : Z -> gmap string string;
  findPropertyRecursive : Z -> list string -> option string }.

(** ** The writer *)

Module Writer.

Import IMF.

(** A string is truthy when it is not empty. *)
Definition truthy (s : string) : bool := negb (String.eqb s "").

Definition myFixed4 (x : Q) : Q := (JS.Math_round (x * 10000) / 10000)%Q.
Definition myFixed2 (x : Q) : Q := (JS.Math_round (x * 100) / 100)%Q.

(** [m[i]] on the elements of a matrix transform (sixteen numbers). *)
Definition elt (m : list Q) (i : nat) : Q := nth i m 0%Q.

Definition nodeTransform (node : IObjectNode) : THREE.Matrix4 :=
  let matrix := THREE.identity in
  match transform node with
  | None => matrix
  | Some (MatrixTransform m) =>
      THREE.set
        (elt m 0) (elt m 1) (elt m 2) (elt m 3)
        (elt m 4) (elt m 5) (elt m 6) (elt m 7)
        (elt m 8) (elt m 9) (elt m 10) (elt m 11)
        (elt m 12) (elt m 13) (elt m 14) (elt m 15)
  | Some (DecomposedTransform t r s) =>
      let matrix :=
        match r with
        | Some r =>
            THREE.makeRotationFromQuaternion
              (THREE.mkQuaternion (rx r) (ry r) (rz r) (rw r))
        | None => matrix
        end in
      let matrix :=
        match s with
        | Some s => THREE.scale matrix (THREE.mkVector3 (x s) (y s) (z s))
        | None => matrix
        end in
      match t with
      | Some t => THREE.setPosition matrix (x t) (y t) (z t)
      | None => matrix
      end
  end.

Definition getRootScale (imf : IScene) : Q :=
  let metadata := getMetadata imf in
  match value <$> (metadata !! "distance unit") with
  | Some distanceUnit =>
      if truthy distanceUnit then
        if String.eqb distanceUnit "centimeter" || String.eqb distanceUnit "cm"
        then 0.01%Q
        else if String.eqb distanceUnit "millimeter" || String.eqb distanceUnit "mm"
        then 0.001%Q
        else if String.eqb distanceUnit "foot" || String.eqb distanceUnit "ft"
        then 0.3048%Q
        else if String.eqb distanceUnit "inch" || String.eqb distanceUnit "in"
        then 0.0254%Q
        else 1%Q
      else 1%Q
  | None => 1%Q
  end.

(** *** Grouping *)

(** [Map<string, NodeID[]>], in insertion order. *)
Definition ObjectNodes := list (string * list NodeID).

(** [m.get(id)?.push(i) ?? m.set(id, [i])]. *)
Fixpoint pushNode (id : string) (i : NodeID) (m : ObjectNodes) : ObjectNodes :=
  match m with
  | [] => [(id, [i])]
  | (k, nodes) :: m' =>
      if String.eqb k id then (k, nodes ++ [i]) :: m'
      else (k, nodes) :: pushNode id i m'
  end.

Record NodeInfo := mkNodeInfo {
  buildingNodes : ObjectNodes;
  openingNodes : ObjectNodes;
  messages : list string   (* what [options.log] has received *) }.

Definition isOpening (propdb : option PropDbReader) (node : IObjectNode) : bool :=
  match propdb with
  | Some db =>
      match getProperties db (dbid node) !! "Element:IfcExportAs" with
      | Some v => truthy v && String.eqb v "IfcOpeningElement"
      | None => false
      end
  | None => false
  end.

Definition groupKey (propdb : option PropDbReader) (node : IObjectNode) : string :=
  match propdb ≫= (fun db =>
          findPropertyRecursive db (dbid node) ["IFC:GLOBALID"; "Element:IfcGUID"]) with
  | Some id => id
  | None => "dbid-" +:+ JS.Z_toString (dbid node)
  end.

(** One iteration of the loop of [getObjectNodes]. *)
Definition getObjectNodes_body (imf : IScene) (propdb : option PropDbReader)
    (acc : NodeInfo) (i : NodeID) : NodeInfo :=
  match getNode imf i with
  | OtherNode kind =>
      mkNodeInfo (buildingNodes acc) (openingNodes acc)
                 (messages acc ++ ["Skipping node type " +:+ kind])
  | ObjectNode node =>
      let id := groupKey propdb node in
      if isOpening propdb node
      then mkNodeInfo (buildingNodes acc) (pushNode id i (openingNodes acc)) (messages acc)
      else mkNodeInfo (pushNode id i (buildingNodes acc)) (openingNodes acc) (messages acc)
  end.

Definition getObjectNodes (imf : IScene) (propdb : option PropDbReader)
    (log : list string) : NodeInfo :=
  fold_left (getObjectNodes_body imf propdb) (seq 0 (getNodeCount imf))
            (mkNodeInfo [] [] log).

(** *** Streaming output *)

(** The file at [outputPath], the local variables [output] and [indexOffset]
    of [writeObjects], and what [options.log] has received. *)
Record WState := mkWState {
  file : string;
  output : list string;
  indexOffset : N;
  logged : list string }.

(** A run either completes or throws, leaving the state it reached. *)
Inductive Outcome :=
| Done (st : WState)
| Thrown (msg : string) (st : WState).

(** The state an outcome leaves, and its file. *)
Definition state_of (o : Outcome) : WState :=
  match o with
  | Done st => st
  | Thrown _ st => st
  end.

Definition file_of (o : Outcome) : string := file (state_of o).

Definition andThen (o : Outcome) (k : WState -> Outcome) : Outcome :=
  match o with
  | Done st => k st
  | Thrown msg st => Thrown msg st
  end.

Notation "o >>> k" := (andThen o k) (at level 50, left associativity).

(** [Array.prototype.forEach] / [Map.prototype.forEach] with a body that may
    throw. *)
Fixpoint forEach {A : Type} (body : A -> WState -> Outcome) (l : list A)
    (st : WState) : Outcome :=
  match l with
  | [] => Done st
  | a :: l' => body a st >>> forEach body l'
  end.

(** The loop [for (v = 0; v < buffer.length / 3; v++)] reading three values
    per round from the iterator of [buffer]; [new Vector3] reads an
    exhausted iterator as 0. *)
Fixpoint vectors (buffer : list Q) : list THREE.Vector3 :=
  match buffer with
  | [] => []
  | [a] => [THREE.mkVector3 a 0 0]
  | [a; b] => [THREE.mkVector3 a b 0]
  | a :: b :: c :: rest => THREE.mkVector3 a b c :: vectors rest
  end.

(** The same loop over the index buffer; an exhausted iterator yields
    [undefined] ([None]). *)
Fixpoint triangles (indices : list N) : list (option N * option N * option N) :=
  match indices with
  | [] => []
  | [a] => [(Some a, None, None)]
  | [a; b] => [(Some a, Some b, None)]
  | a :: b :: c :: rest => (Some a, Some b, Some c) :: triangles rest
  end.

(** [vertices.length / 3] on a buffer that holds whole triplets (the
    invariant of the intermediate format; on any other length JavaScript
    carries a fraction, which is outside the model). *)
Definition count3 {A : Type} (buffer : list A) : N := (N.of_nat (length buffer) / 3)%N.

Definition vertexLine (transform : THREE.Matrix4) (rootScale : Q) (p : THREE.Vector3)
  : string :=
  let pos := THREE.multiplyScalar (THREE.applyMatrix4 p transform) rootScale in
  "v " +:+ JS.Number_toString (myFixed4 (THREE.vx pos)) +:+ " " +:+
  JS.Number_toString (myFixed4 (THREE.vy pos)) +:+ " " +:+
  JS.Number_toString (myFixed4 (THREE.vz pos)).

Definition normalLine (rotation : THREE.Matrix4) (p : THREE.Vector3) : string :=
  let n := THREE.applyMatrix4 p rotation in
  "vn " +:+ JS.Number_toString (myFixed2 (THREE.vx n)) +:+ " " +:+
  JS.Number_toString (myFixed2 (THREE.vy n)) +:+ " " +:+
  JS.Number_toString (myFixed2 (THREE.vz n)).

(** [indexOffset + fIt.next().value], and its rendering (NaN when the
    iterator is exhausted). *)
Definition faceIndex (indexOffset : N) (i : option N) : option N :=
  (fun i => (indexOffset + i)%N) <$> i.

Definition index_toString (f : option N) : string :=
  match f with
  | Some n => JS.N_toString n
  | None => "NaN"
  end.

Definition faceString (f0 f1 f2 : option N) (withNormals : bool) : string :=
  if withNormals then
    "f " +:+ index_toString f0 +:+ "//" +:+ index_toString f0 +:+ " " +:+
    index_toString f1 +:+ "//" +:+ index_toString f1 +:+ " " +:+
    index_toString f2 +:+ "//" +:+ index_toString f2
  else
    "f " +:+ index_toString f0 +:+ " " +:+ index_toString f1 +:+ " " +:+
    index_toString f2.

Definition faceLine (indexOffset : N) (writingNormals : bool)
    (t : option N * option N * option N) : string :=
  let '(i0, i1, i2) := t in
  faceString (faceIndex indexOffset i0) (faceIndex indexOffset i1)
             (faceIndex indexOffset i2) writingNormals.

Section WriteObjects.

Variable skipNormals : bool.   (* [this.options.skipNormals] *)
Variable threshold : N.        (* the flush threshold, 50000 in [writeObjects] *)
Variable scene : IScene.
Variable rootScale : Q.

(** The normals the writer emits for a mesh, if any. *)
Definition writtenNormals (geometry : IMeshGeometry) : option (list Q) :=
  if skipNormals then None else getNormals geometry.

(** The lines pushed for one mesh, in order: vertices, normals, faces. *)
Definition meshLines (node : IObjectNode) (geometry : IMeshGeometry) (indexOffset : N)
  : list string :=
  let transform := nodeTransform node in
  let rotation := THREE.extractRotation transform in
  let '(writingNormals, normalLines) :=
    match writtenNormals geometry with
    | Some normals => (true, map (normalLine rotation) (vectors normals))
    | None => (false, [])
    end in
  map (vertexLine transform rootScale) (vectors (getVertices geometry)) ++
  normalLines ++
  map (faceLine indexOffset writingNormals) (triangles (getIndices geometry)).

(** [if (output.length > 50000) { appendFileSync(...); output = [] }]. *)
Definition flushIfFull (st : WState) : WState :=
  if (threshold <? N.of_nat (length (output st)))%N
  then mkWState (file st +:+ JS.join JS.LF (output st) +:+ JS.LF) [] (indexOffset st) (logged st)
  else st.

(** The body of [nodes.forEach]. *)
Definition writeNode (nodeId : NodeID) (st : WState) : Outcome :=
  match getNode scene nodeId with
  | OtherNode kind =>
      Thrown ("Node kind " +:+ kind +:+ " should have been excluded") st
  | ObjectNode node =>
      match getGeometry scene (geometry node) with
      | MeshGeometry geometry =>
          let st1 :=
            mkWState (file st)
                     (output st ++ meshLines node geometry (indexOffset st))
                     (indexOffset st + count3 (getVertices geometry))%N
                     (logged st) in
          Done (flushIfFull st1)
      | OtherGeometry _ => Done st
      end
  end.

(** The body of [objectNodes.forEach]. *)
Definition writeGroup (entry : string * list NodeID) (st : WState) : Outcome :=
  let '(id, nodes) := entry in
  forEach writeNode nodes
    (mkWState (file st) (output st ++ ["o " +:+ id]) (indexOffset st) (logged st)).

(** [writeObjects]; [log] is what the log callback received before the call.
    The content of the file at [outputPath] is the [file] of the outcome. *)
Definition writeObjectsWith (objectNodes : ObjectNodes) (log : list string) : Outcome :=
  forEach writeGroup objectNodes (mkWState "" [] 1%N log) >>> (fun st =>
  Done (mkWState (file st +:+ JS.join JS.LF (output st)) (output st) (indexOffset st) (logged st))).

End WriteObjects.

(** [writeObjects] as written: the threshold is the literal 50000. *)
Definition writeObjects (skipNormals : bool) (objectNodes : ObjectNodes)
    (scene : IScene) (rootScale : Q) (log : list string) : Outcome :=
  writeObjectsWith skipNormals 50000%N scene rootScale objectNodes log.

(** What [write] leaves behind: the two files and the log. *)
Record Written := mkWritten {
  output_obj : string;
  openings_obj : string;
  log : list string }.

(** [write]; an exception of [writeObjects] propagates ([inl]). *)
Definition write (skipNormals : bool) (imf : IScene) (propdb : option PropDbReader)
  : string + Written :=
  let rootScale := getRootScale imf in
  let nodeInfo := getObjectNodes imf propdb [] in
  match writeObjects skipNormals (buildingNodes nodeInfo) imf rootScale (messages nodeInfo) with
  | Thrown msg _ => inl msg
  | Done regular =>
      match writeObjects skipNormals (openingNodes nodeInfo) imf rootScale (logged regular) with
      | Thrown msg _ => inl msg
      | Done opening =>
          inr (mkWritten (file regular) (file opening)
                         (logged opening ++ ["Finished writing OBJ"]))
      end
  end.

End Writer.

(** * The specification's reading of the same operations *)

Module Spec.

Import IMF Writer.

Local Open Scope Q_scope.

(** The rotation matrix of a quaternion, row by row. *)
Definition rotationMatrix (q : IQuaternion) : THREE.Matrix4 :=
  let '(a, b, c, w) := (rx q, ry q, rz q, rw q) in
  THREE.set
    (1 - 2 * (b * b + c * c)) (2 * (a * b - w * c)) (2 * (a * c + w * b)) 0
    (2 * (a * b + w * c)) (1 - 2 * (a * a + c * c)) (2 * (b * c - w * a)) 0
    (2 * (a * c - w * b)) (2 * (b * c + w * a)) (1 - 2 * (a * a + b * b)) 0
    0 0 0 1.

Definition noTranslation : IVec3 := mkVec3 0 0 0.
Definition noRotation : IQuaternion := mkQuat 0 0 0 1.
Definition noScale : IVec3 := mkVec3 1 1 1.

(** Translation * Rotation * Scale, absent components being identity. *)
Definition TRS (t : option IVec3) (r : option IQuaternion) (s : option IVec3)
  : THREE.Matrix4 :=
  let t := default noTranslation t in
  let s := default noScale s in
  THREE.multiply (THREE.makeTranslation (x t) (y t) (z t))
    (THREE.multiply (rotationMatrix (default noRotation r))
                    (THREE.makeScale (x s) (y s) (z s))).

Local Close Scope Q_scope.

(** The unit read by [getRootScale]. *)
Definition distanceUnit (imf : IScene) : option string :=
  value <$> (getMetadata imf !! "distance unit").

(** The tokens of the unit table. *)
Definition unitTokens : list string :=
  ["centimeter"; "cm"; "millimeter"; "mm"; "foot"; "ft"; "inch"; "in"].

(** The GroupKey of an object node: the recursive lookup, else [dbid-<dbid>]. *)
Definition GroupKey (propdb : option PropDbReader) (node : IObjectNode) : string :=
  match propdb with
  | Some db =>
      default ("dbid-" +:+ JS.Z_toString (dbid node))
              (findPropertyRecursive db (dbid node) ["IFC:GLOBALID"; "Element:IfcGUID"])
  | None => "dbid-" +:+ JS.Z_toString (dbid node)
  end.

(** An object node is an opening when the database is present and gives
    ["IfcOpeningElement"] for ["Element:IfcExportAs"]. *)
Definition opening (propdb : option PropDbReader) (node : IObjectNode) : Prop :=
  exists db, propdb = Some db /\
    getProperties db (dbid node) !! "Element:IfcExportAs" = Some "IfcOpeningElement".

(** The keys of a list in order of first occurrence. *)
Fixpoint firstSeen (keys : list string) : list string :=
  match keys with
  | [] => []
  | k :: keys' => k :: List.filter (fun k' => negb (String.eqb k' k)) (firstSeen keys')
  end.

(** The group of key [k] among [es]. *)
Definition groupOf (es : list (string * NodeID)) (k : string) : string * list NodeID :=
  (k, map snd (List.filter (fun e => String.eqb (fst e) k) es)).

(** Grouping of [(key, node)] pairs: one group per key, groups in order of
    first occurrence, nodes of a group in order of occurrence. *)
Definition grouped (entries : list (string * NodeID)) : ObjectNodes :=
  map (groupOf entries) (firstSeen (map fst entries)).

(** One insertion of the loop of [getObjectNodes]. *)
Definition push (m : ObjectNodes) (e : string * NodeID) : ObjectNodes :=
  pushNode (fst e) (snd e) m.

(** The diagnostics of the nodes that are not objects, in the order of [l]. *)
Definition skipped (imf : IScene) (l : list NodeID) : list string :=
  flat_map (fun i =>
    match getNode imf i with
    | ObjectNode _ => []
    | OtherNode kind => ["Skipping node type " +:+ kind]
    end) l.

(** The object nodes among the indices [l] with classification [cls]
    ([true]: opening), each with its key, in the order of [l]. *)
Definition entriesOf (imf : IScene) (propdb : option PropDbReader) (cls : bool)
    (l : list NodeID) : list (string * NodeID) :=
  flat_map (fun i =>
    match getNode imf i with
    | ObjectNode node =>
        if Bool.eqb (isOpening propdb node) cls then [(GroupKey propdb node, i)] else []
    | OtherNode _ => []
    end) l.

Definition sceneOrder (imf : IScene) : list NodeID := seq 0 (getNodeCount imf).

(** The members of a bucket in writing order, across its groups. *)
Definition members (bucket : ObjectNodes) : list NodeID := concat (map snd bucket).

Definition isObject (scene : IScene) (i : NodeID) : Prop :=
  exists node, getNode scene i = ObjectNode node.

(** Whole lines, each one closed by the separator. *)
Definition terminated (lines : list string) : string :=
  fold_right (fun l acc => l +:+ JS.LF +:+ acc) "" lines.

(** [st] holds the lines [lines]: a prefix of whole lines is in the file, the
    rest is in the buffer. *)
Definition holds (lines : list string) (st : WState) : Prop :=
  exists flushed, lines = flushed ++ output st /\ file st = terminated flushed.

(** What a state is after some members: the lines it holds, the running
    offset and the log. *)
Definition advanced (st : WState) (new : list string) (vertices : N) (st' : WState)
  : Prop :=
  (forall lines, holds lines st -> holds (lines ++ new) st') /\
  indexOffset st' = (indexOffset st + vertices)%N /\
  logged st' = logged st.

Definition isMesh (scene : IScene) (i : NodeID) : Prop :=
  exists node g, getNode scene i = ObjectNode node /\
                 getGeometry scene (geometry node) = MeshGeometry g.

Definition notMesh (scene : IScene) (i : NodeID) : Prop :=
  exists node kind, getNode scene i = ObjectNode node /\
                    getGeometry scene (geometry node) = OtherGeometry kind.

Section Unbounded.

Variable skipNormals : bool.
Variable scene : IScene.
Variable rootScale : Q.

(** The vertex count a member adds to the running offset. *)
Definition vertexCount (nodeId : NodeID) : N :=
  match getNode scene nodeId with
  | ObjectNode node =>
      match getGeometry scene (geometry node) with
      | MeshGeometry g => count3 (getVertices g)
      | OtherGeometry _ => 0%N
      end
  | OtherNode _ => 0%N
  end.

Definition vertexTotal (nodes : list NodeID) : N :=
  fold_right (fun n acc => (vertexCount n + acc)%N) 0%N nodes.

(** The lines of one member written at running offset [offset]. *)
Definition memberLines (offset : N) (nodeId : NodeID) : list string :=
  match getNode scene nodeId with
  | ObjectNode node =>
      match getGeometry scene (geometry node) with
      | MeshGeometry g => meshLines skipNormals rootScale node g offset
      | OtherGeometry _ => []
      end
  | OtherNode _ => []
  end.

Fixpoint membersLines (offset : N) (nodes : list NodeID) : list string :=
  match nodes with
  | [] => []
  | n :: nodes' =>
      memberLines offset n ++ membersLines (offset + vertexCount n)%N nodes'
  end.

(** All lines of a bucket, the running offset carried across the groups. *)
Fixpoint bucketLines (offset : N) (bucket : ObjectNodes) : list string :=
  match bucket with
  | [] => []
  | (id, nodes) :: bucket' =>
      ("o " +:+ id) :: membersLines offset nodes ++
      bucketLines (offset + vertexTotal nodes)%N bucket'
  end.

(** The state reached when the member [nodeId], a mesh, has pushed all its
    lines and the buffer has not been compared with the threshold yet. *)
Definition pushed (nodeId : NodeID) (st : WState) : WState :=
  mkWState (file st) (output st ++ memberLines (indexOffset st) nodeId)
           (indexOffset st + vertexCount nodeId)%N (logged st).

(** An unbounded single write: every line of the bucket, joined once. *)
Definition unboundedWrite (bucket : ObjectNodes) : string :=
  JS.join JS.LF (bucketLines 1%N bucket).

End Unbounded.

End Spec.

(** * Evaluation on small scenes *)

Module Samples.

Import IMF Writer.

Definition triangle : IMeshGeometry :=
  mkMesh [0; 1; 2]%N [0; 0; 0; 1; 0; 0; 0; 1; 0]%Q None.

(** One object node ([dbid] 7, no transform) over [triangle], unit "m". *)
Definition scene7 : IScene :=
  mkScene 1 (fun _ => ObjectNode (mkObjectNode 7 None 0))
          (fun _ => MeshGeometry triangle)
          {[ "distance unit" := mkEntry "m" ]}.

(** A translation by (5, 6, 7) given as a column-major matrix. *)
Definition translate567 : list Q :=
  [1; 0; 0; 0;  0; 1; 0; 0;  0; 0; 1; 0;  5; 6; 7; 1]%Q.

Definition node567 : IObjectNode :=
  mkObjectNode 7 (Some (MatrixTransform translate567)) 0.

(** Four nodes: objects 1 and 3 share a GUID, object 2 is an opening, and
    node 1 is a group. *)
Definition sceneGroups : IScene :=
  mkScene 4
    (fun i => match i with
              | 0%nat => ObjectNode (mkObjectNode 1 None 0)
              | 1%nat => OtherNode "0"
              | 2%nat => ObjectNode (mkObjectNode 2 None 0)
              | _ => ObjectNode (mkObjectNode 3 None 0)
              end)
    (fun _ => MeshGeometry triangle)
    ∅.

Definition propdbGroups : PropDbReader :=
  mkPropDb
    (fun id => if (id =? 2)%Z then {[ "Element:IfcExportAs" := "IfcOpeningElement" ]}
               else ∅)
    (fun id _ => if (id =? 2)%Z then None else Some "GUID-A").

(** One object node whose geometry is not a mesh. *)
Definition sceneLines : IScene :=
  mkScene 1 (fun _ => ObjectNode (mkObjectNode 7 None 0))
          (fun _ => OtherGeometry "1")
          ∅.



(** One object node over a mesh of 50000 vertices at the origin. *)
Definition mesh50000 : IMeshGeometry :=
  mkMesh [] (concat (repeat [0; 0; 0]%Q (N.to_nat 50000))) None.

Definition scene50000 : IScene :=
  mkScene 1 (fun _ => ObjectNode (mkObjectNode 7 None 0))
          (fun _ => MeshGeometry mesh50000)
          ∅.

End Samples.

(** * The earlier writers of the repository

    Two earlier versions of [obj/writer.ts] are kept in the repository: one
    that writes a single file, and one that writes the regular and the
    opening file in one loop. Their [nodeTransform] and [getRootScale] are,
    letter for letter, those of [Writer]; the lines of a mesh are produced by
    the same statements as in [Writer.writeObjects], embedded as
    [Writer.meshLines]. *)

Module JSText.

(** [String.prototype.split] with a separator of one character. *)
Fixpoint split (sep : ascii) (s : string) : list string :=
  match s with
  | EmptyString => [""]
  | String c s' =>
      if Ascii.eqb c sep then "" :: split sep s'
      else match split sep s' with
           | [] => [String c ""]
           | w :: ws => String c w :: ws
           end
  end.

Definition LFchar : ascii := ascii_of_nat 10.
Definition SPchar : ascii := ascii_of_nat 32.

End JSText.

(** ** The single-file writer *)

Module Writer1.

Import IMF Writer.

(** What [write] leaves behind: the file [output.obj] and the log. *)
Record Written := mkWritten {
  output_obj : string;
  log : list string }.

Section Write.

Variable skipNormals : bool.
Variable threshold : N.        (* 50000 in [write] *)
Variable imf : IScene.
Variable rootScale : Q.

(** One round of the loop of [write]; the state holds [objPath]'s content,
    [result], [indexOffset] and the log. *)
Definition write_body (st : WState) (i : NodeID) : WState :=
  match getNode imf i with
  | OtherNode kind =>
      mkWState (file st) (output st) (indexOffset st)
               (logged st ++ ["Skipping node type " +:+ kind])
  | ObjectNode node =>
      match getGeometry imf (geometry node) with
      | OtherGeometry kind =>
          mkWState (file st) (output st) (indexOffset st)
                   (logged st ++ ["Skipping geometry type " +:+ kind])
      | MeshGeometry geometry =>
          flushIfFull threshold
            (mkWState (file st)
                      (output st ++ ["o " +:+ JS.Z_toString (dbid node)] ++
                       meshLines skipNormals rootScale node geometry (indexOffset st))
                      (indexOffset st + count3 (getVertices geometry))%N
                      (logged st))
      end
  end.

Definition loop (l : list NodeID) (st : WState) : WState := fold_left write_body l st.

End Write.

Definition writeWith (skipNormals : bool) (threshold : N) (imf : IScene) : Written :=
  let rootScale := getRootScale imf in
  let st := loop skipNormals threshold imf rootScale (seq 0 (getNodeCount imf))
                 (mkWState "" [] 1%N []) in
  mkWritten (file st +:+ JS.join JS.LF (output st))
            (logged st ++ ["Finished writing OBJ"]).

(** [write] as written: the threshold is the literal 50000. *)
Definition write (skipNormals : bool) (imf : IScene) : Written :=
  writeWith skipNormals 50000%N imf.

End Writer1.

(** ** The writer of both files in one loop *)

Module Writer2.

Import IMF Writer.

(** The local variables of [write], the two files and the log. *)
Record State := mkState {
  regularIndexOffset : N;
  openingIndexOffset : N;
  regularOutput : list string;
  openingOutput : list string;
  objFile : string;
  openingObjFile : string;
  logLines : list string }.

Section Write.

Variable skipNormals : bool.
Variable threshold : N.        (* 50000 in [write] *)
Variable imf : IScene.
Variable propdb : option PropDbReader.
Variable rootScale : Q.

(** [if (regularOutput.length > 50000) { appendFileSync(objPath, ...); regularOutput = [] }]. *)
Definition flushRegular (st : State) : State :=
  if (threshold <? N.of_nat (length (regularOutput st)))%N
  then mkState (regularIndexOffset st) (openingIndexOffset st) [] (openingOutput st)
               (objFile st +:+ JS.join JS.LF (regularOutput st) +:+ JS.LF)
               (openingObjFile st) (logLines st)
  else st.

Definition flushOpening (st : State) : State :=
  if (threshold <? N.of_nat (length (openingOutput st)))%N
  then mkState (regularIndexOffset st) (openingIndexOffset st) (regularOutput st) []
               (objFile st)
               (openingObjFile st +:+ JS.join JS.LF (openingOutput st) +:+ JS.LF)
               (logLines st)
  else st.

Definition logLine (st : State) (msg : string) : State :=
  mkState (regularIndexOffset st) (openingIndexOffset st) (regularOutput st)
          (openingOutput st) (objFile st) (openingObjFile st) (logLines st ++ [msg]).

(** One round of the loop of [write]. *)
Definition write_body (st : State) (i : NodeID) : State :=
  match getNode imf i with
  | OtherNode kind => logLine st ("Skipping node type " +:+ kind)
  | ObjectNode node =>
      match getGeometry imf (geometry node) with
      | OtherGeometry kind => logLine st ("Skipping geometry type " +:+ kind)
      | MeshGeometry geometry =>
          let id := groupKey propdb node in
          let st1 :=
            if isOpening propdb node then
              mkState (regularIndexOffset st)
                      (openingIndexOffset st + count3 (getVertices geometry))%N
                      (regularOutput st)
                      (openingOutput st ++ ["o " +:+ id] ++
                       meshLines skipNormals rootScale node geometry
                                 (openingIndexOffset st))
                      (objFile st) (openingObjFile st) (logLines st)
            else
              mkState (regularIndexOffset st + count3 (getVertices geometry))%N
                      (openingIndexOffset st)
                      (regularOutput st ++ ["o " +:+ id] ++
                       meshLines skipNormals rootScale node geometry
                                 (regularIndexOffset st))
                      (openingOutput st)
                      (objFile st) (openingObjFile st) (logLines st) in
          flushOpening (flushRegular st1)
      end
  end.

Definition loop (l : list NodeID) (st : State) : State := fold_left write_body l st.

End Write.

Definition writeWith (skipNormals : bool) (threshold : N) (imf : IScene)
    (propdb : option PropDbReader) : Writer.Written :=
  let rootScale := getRootScale imf in
  let st := loop skipNormals threshold imf propdb rootScale (seq 0 (getNodeCount imf))
                 (mkState 1%N 1%N [] [] "" "" []) in
  Writer.mkWritten (objFile st +:+ JS.join JS.LF (regularOutput st))
                   (openingObjFile st +:+ JS.join JS.LF (openingOutput st))
                   (logLines st ++ ["Finished writing OBJ"]).

(** [write] as written: the threshold is the literal 50000. *)
Definition write (skipNormals : bool) (imf : IScene) (propdb : option PropDbReader)
  : Writer.Written :=
  writeWith skipNormals 50000%N imf propdb.

(** *** [loadGlobalId] *)

Section LoadGlobalId.

(** The numbers used as keys, with the equality of [Map] keys, and the
    conversion [+s] of a string to a number. *)
Context {K : Type} `{EqDecision K}.
Variable Number : string -> K.

(** [Map<number, string>] in insertion order; a line without a second field
    stores [undefined] ([None]). *)
Definition IdMap := list (K * option string).

(** [Map.prototype.set]: an existing key keeps its place. *)
Fixpoint Map_set (k : K) (v : option string) (m : IdMap) : IdMap :=
  match m with
  | [] => [(k, v)]
  | (k', v') :: m' =>
      if decide (k' = k) then (k, v) :: m' else (k', v') :: Map_set k v m'
  end.

(** [Map.prototype.has] and [Map.prototype.get]. *)
Fixpoint Map_get (k : K) (m : IdMap) : option (option string) :=
  match m with
  | [] => None
  | (k', v') :: m' => if decide (k' = k) then Some v' else Map_get k m'
  end.

(** [text.split("\n").map(s => s.split(" "))]. *)
Definition entries (text : string) : list (list string) :=
  map (JSText.split JSText.SPchar) (JSText.split JSText.LFchar text).

(** The key [+e[0]] and the value [e[1]] of an entry. *)
Definition entryKey (e : list string) : K := Number (hd "" e).
Definition entryValue (e : list string) : option string := e !! 1%nat.

(** [loadGlobalId] on the text of the file. *)
Definition loadGlobalId (text : string) : IdMap :=
  fold_left (fun ids e => Map_set (entryKey e) (entryValue e) ids) (entries text) [].

End LoadGlobalId.

End Writer2.

(** ** The earlier writers and the exceptions of [writeObjects], line by line *)

Module Lines.

Import IMF Writer.

(** The kind of the first member that is not an object node. *)
Fixpoint firstOther (scene : IScene) (nodes : list NodeID) : option string :=
  match nodes with
  | [] => None
  | n :: nodes' =>
      match getNode scene n with
      | OtherNode kind => Some kind
      | ObjectNode _ => firstOther scene nodes'
      end
  end.

(** The members before the first one that is not an object node. *)
Fixpoint objectsPrefix (scene : IScene) (nodes : list NodeID) : list NodeID :=
  match nodes with
  | [] => []
  | n :: nodes' =>
      match getNode scene n with
      | ObjectNode _ => n :: objectsPrefix scene nodes'
      | OtherNode _ => []
      end
  end.

(** The bucket cut before its first member that is not an object node: the
    groups before it, and its own group with the members before it. *)
Fixpoint untilOther (scene : IScene) (bucket : ObjectNodes) : ObjectNodes :=
  match bucket with
  | [] => []
  | (id, nodes) :: bucket' =>
      match firstOther scene nodes with
      | Some _ => [(id, objectsPrefix scene nodes)]
      | None => (id, nodes) :: untilOther scene bucket'
      end
  end.




(** The diagnostics of the earlier writers: nodes that are not objects and
    geometries that are not meshes, in the order of [l]. *)
Definition skipLog (imf : IScene) (l : list NodeID) : list string :=
  flat_map (fun i =>
    match getNode imf i with
    | OtherNode kind => ["Skipping node type " +:+ kind]
    | ObjectNode node =>
        match getGeometry imf (geometry node) with
        | OtherGeometry kind => ["Skipping geometry type " +:+ kind]
        | MeshGeometry _ => []
        end
    end) l.

Section PerNode.

Variable skipNormals : bool.
Variable imf : IScene.
Variable rootScale : Q.
Variable name : IObjectNode -> string.    (* the name on the header line *)
Variable selected : IObjectNode -> bool.  (* the nodes that go to this file *)

(** The mesh of node [i] when it is an object node of this file. *)
Definition written (i : NodeID) : option (IObjectNode * IMeshGeometry) :=
  match getNode imf i with
  | ObjectNode node =>
      match getGeometry imf (geometry node) with
      | MeshGeometry g => if selected node then Some (node, g) else None
      | OtherGeometry _ => None
      end
  | OtherNode _ => None
  end.

(** One header line per written node, then its mesh at the running offset,
    which advances by the vertex count of each written mesh. *)
Fixpoint perNodeLines (offset : N) (l : list NodeID) : list string :=
  match l with
  | [] => []
  | i :: l' =>
      match written i with
      | Some (node, g) =>
          ("o " +:+ name node) :: meshLines skipNormals rootScale node g offset ++
          perNodeLines (offset + count3 (getVertices g))%N l'
      | None => perNodeLines offset l'
      end
  end.

Fixpoint perNodeVertices (l : list NodeID) : N :=
  match l with
  | [] => 0%N
  | i :: l' =>
      match written i with
      | Some (_, g) => (count3 (getVertices g) + perNodeVertices l')%N
      | None => perNodeVertices l'
      end
  end.

End PerNode.

(** The two files of [Writer2] seen as states of a single-file writer. *)
Definition regularView (st : Writer2.State) : WState :=
  mkWState (Writer2.objFile st) (Writer2.regularOutput st)
           (Writer2.regularIndexOffset st) (Writer2.logLines st).

Definition openingView (st : Writer2.State) : WState :=
  mkWState (Writer2.openingObjFile st) (Writer2.openingOutput st)
           (Writer2.openingIndexOffset st) (Writer2.logLines st).

(** Two states with the same file, buffer and offset. *)
Definition same_buffer (a b : WState) : Prop :=
  file a = file b /\ output a = output b /\ indexOffset a = indexOffset b.

(** The buffer is within the threshold, as it is after every comparison. *)
Definition within (threshold : N) (st : WState) : Prop :=
  (N.of_nat (length (output st)) <= threshold)%N.

(** A state of [Writer2] and the states of two runs of [writeObjects], one
    per file, at the same point. *)
Definition agrees (threshold : N) (st : Writer2.State) (regular opening : WState) : Prop :=
  same_buffer regular (regularView st) /\ same_buffer opening (openingView st) /\
  within threshold (regularView st) /\ within threshold (openingView st).

(** No object node of [l] has a geometry that is not a mesh. *)
Definition meshesOnly (imf : IScene) (l : list NodeID) : Prop :=
  Forall (fun i => Spec.isObject imf i -> Spec.isMesh imf i) l.

(** The content of a file whose lines are [lines]: joined, and closed by one
    more separator when [closed]. *)
Definition content (lines : list string) (closed : bool) : string :=
  JS.join JS.LF lines +:+ (if closed then JS.LF else "").

(** [st] holds the lines [lines] as a streaming writer with this threshold
    leaves them: whole lines in the file, the rest in the buffer, and nothing
    in the file unless more than [threshold] lines went there. *)
Definition streamed (threshold : N) (lines : list string) (st : WState) : Prop :=
  exists flushed,
    lines = flushed ++ output st /\ file st = Spec.terminated flushed /\
    (flushed = [] \/ (threshold < N.of_nat (length flushed))%N).

(** The indices of the object nodes of a scene, in scene order. *)
Definition isObjectb (imf : IScene) (i : NodeID) : bool :=
  match getNode imf i with
  | ObjectNode _ => true
  | OtherNode _ => false
  end.

Definition objectIndices (imf : IScene) : list NodeID :=
  List.filter (isObjectb imf) (Spec.sceneOrder imf).

(** One group per entry. *)
Definition singles (es : list (string * NodeID)) : ObjectNodes :=
  map (fun e => (fst e, [snd e])) es.

(** A decimal reading of a string of digits, used to run [loadGlobalId]. *)
Definition digitsToN (s : string) : N :=
  fold_left (fun acc c => (10 * acc + (N_of_ascii c - 48))%N) (list_ascii_of_string s) 0%N.

End Lines.

(** * Properties *)

Import IMF Writer Spec.

(** ** Unit scale *)

Section UnitScale.

Local Open Scope Q_scope.

Lemma getRootScale_absent imf :
  distanceUnit imf = None -> getRootScale imf = 1.
Proof.
  unfold distanceUnit, getRootScale. intros ->. reflexivity.
Qed.

Lemma getRootScale_token imf u :
  distanceUnit imf = Some u ->
  getRootScale imf =
    if String.eqb u "centimeter" || String.eqb u "cm" then 0.01
    else if String.eqb u "millimeter" || String.eqb u "mm" then 0.001
    else if String.eqb u "foot" || String.eqb u "ft" then 0.3048
    else if String.eqb u "inch" || String.eqb u "in" then 0.0254
    else 1.
Proof.
  unfold distanceUnit, getRootScale. intros ->.
  unfold truthy. destruct (String.eqb_spec u "") as [-> | _]; reflexivity.
Qed.

(** C4: [getRootScale] is total and follows the unit table: 0.01 for
    "centimeter" and "cm", 0.001 for "millimeter" and "mm", 0.3048 for "foot"
    and "ft", 0.0254 for "inch" and "in", and 1 for every other value of the
    key "distance unit" and when the key is absent. *)
Theorem getRootScale_unit_table (imf : IScene) :
  let u := distanceUnit imf in
  ((u = Some "centimeter" \/ u = Some "cm") -> getRootScale imf = 0.01) /\
  ((u = Some "millimeter" \/ u = Some "mm") -> getRootScale imf = 0.001) /\
  ((u = Some "foot" \/ u = Some "ft") -> getRootScale imf = 0.3048) /\
  ((u = Some "inch" \/ u = Some "in") -> getRootScale imf = 0.0254) /\
  ((forall t, In t unitTokens -> u <> Some t) -> getRootScale imf = 1).
Proof.
  intros u; subst u.
  repeat split.
  1-4: intros [H | H]; rewrite (getRootScale_token _ _ H); reflexivity.
  intros Hother.
  destruct (distanceUnit imf) as [t |] eqn:Hu;
    [ | apply getRootScale_absent; assumption ].
  rewrite (getRootScale_token _ _ Hu).
  repeat match goal with
  | |- context [String.eqb t ?k] =>
      destruct (String.eqb_spec t k) as [-> | _];
      [ exfalso; apply (Hother k); [ unfold unitTokens; simpl; tauto | reflexivity ] | ]
  end.
  reflexivity.
Qed.

(** The table at the metadata of the specification's examples. *)
Lemma getRootScale_unit_table_witness :
  getRootScale (mkScene 0 (fun _ => OtherNode "0") (fun _ => OtherGeometry "3")
                        {[ "distance unit" := mkEntry "cm" ]}) = 0.01 /\
  getRootScale (mkScene 0 (fun _ => OtherNode "0") (fun _ => OtherGeometry "3")
                        {[ "distance unit" := mkEntry "parsec" ]}) = 1.
Proof.
  split.
  - apply (getRootScale_unit_table
             (mkScene 0 (fun _ => OtherNode "0") (fun _ => OtherGeometry "3")
                      {[ "distance unit" := mkEntry "cm" ]})).
    right; reflexivity.
  - apply (getRootScale_unit_table
             (mkScene 0 (fun _ => OtherNode "0") (fun _ => OtherGeometry "3")
                      {[ "distance unit" := mkEntry "parsec" ]})).
    intros t Ht. vm_compute in Ht. vm_compute.
    intuition (subst; discriminate).
Defined.

End UnitScale.

(** ** Transform resolver *)

Section Transform.

Local Open Scope Q_scope.

Ltac entrywise :=
  cbv -[Qplus Qmult Qminus Qopp Qeq];
  repeat (apply List.Forall2_cons; [ ring | ]); apply List.Forall2_nil.

(** A matrix transform is loaded through [Matrix4.set], whose arguments are
    read row by row: [elements[4r .. 4r+3]] becomes row [r]. *)
Lemma nodeTransform_matrix_rows (id : Z) (g : GeometryID) (m : list Q) (r : nat) :
  length m = 16%nat -> (r < 4)%nat ->
  THREE.row (nodeTransform (mkObjectNode id (Some (MatrixTransform m)) g)) r
  = take 4 (drop (4 * r) m).
Proof.
  intros Hm Hr.
  do 17 (destruct m as [| ? m]; try discriminate Hm).
  destruct r as [| [| [| [| r]]]]; try lia; reflexivity.
Qed.

(** C2, on the translation by (5, 6, 7) given column by column
    (elements[12..14] = 5, 6, 7): the resolved matrix has these elements as
    its fourth row; its fourth column is (0, 0, 0, 1), so the matrix does
    not translate, and it sends the point (1, 0, 0) to (1/6, 0, 0). *)
Theorem nodeTransform_matrix_is_transposed :
  THREE.column (nodeTransform Samples.node567) 3 = [0; 0; 0; 1] /\
  THREE.row (nodeTransform Samples.node567) 3 = [5; 6; 7; 1] /\
  THREE.column (nodeTransform Samples.node567) 3 <> drop 12 Samples.translate567 /\
  (let p := THREE.applyMatrix4 (THREE.mkVector3 1 0 0) (nodeTransform Samples.node567) in
   THREE.vx p == 1 # 6 /\ THREE.vy p == 0 /\ THREE.vz p == 0).
Proof.
  split; [ reflexivity | split; [ reflexivity | split ] ].
  - vm_compute. discriminate.
  - repeat split; reflexivity.
Qed.

(** The sibling branch: the same translation given decomposed puts
    (5, 6, 7) in the fourth column. *)
Lemma nodeTransform_decomposed_column3 :
  THREE.column
    (nodeTransform
       (mkObjectNode 7 (Some (DecomposedTransform (Some (mkVec3 5 6 7)) None None)) 0%nat)) 3
  = [5; 6; 7; 1].
Proof. reflexivity. Qed.

Lemma rotation_of_quaternion (q : IQuaternion) :
  THREE.Meq
    (THREE.makeRotationFromQuaternion (THREE.mkQuaternion (rx q) (ry q) (rz q) (rw q)))
    (Spec.rotationMatrix q).
Proof. destruct q; entrywise. Qed.

Lemma nodeTransform_TRS (id : Z) (g : GeometryID)
    (t : option IVec3) (r : option IQuaternion) (s : option IVec3) :
  THREE.Meq (nodeTransform (mkObjectNode id (Some (DecomposedTransform t r s)) g))
            (Spec.TRS t r s).
Proof.
  destruct t as [[]|], r as [[]|], s as [[]|]; entrywise.
Qed.

(** C3: a decomposed transform resolves to Translation * Rotation * Scale
    (absent components being identity) entry by entry; with identity scale
    and rotation, absent or given, the result is exactly the translation
    matrix; an absent transform resolves to the identity matrix. *)
Theorem nodeTransform_decomposed (id : Z) (g : GeometryID) :
  (forall t r s,
     THREE.Meq (nodeTransform (mkObjectNode id (Some (DecomposedTransform t r s)) g))
               (Spec.TRS t r s)) /\
  (forall t,
     let T := THREE.makeTranslation (x t) (y t) (z t) in
     let resolve r s :=
       nodeTransform (mkObjectNode id (Some (DecomposedTransform (Some t) r s)) g) in
     resolve None None = T /\
     resolve (Some Spec.noRotation) None = T /\
     resolve None (Some Spec.noScale) = T /\
     resolve (Some Spec.noRotation) (Some Spec.noScale) = T) /\
  nodeTransform (mkObjectNode id None g) = THREE.identity.
Proof.
  split; [ intros; apply nodeTransform_TRS | split; [ | reflexivity ] ].
  intros [tx ty tz]. repeat split; reflexivity.
Qed.

End Transform.

(** ** Classification and grouping *)

Section Grouping.

Lemma In_firstSeen k ks : In k (Spec.firstSeen ks) <-> In k ks.
Proof.
  induction ks as [| a ks IH]; simpl; [ tauto | ].
  rewrite List.filter_In, IH.
  destruct (String.eqb_spec k a) as [-> | Hne]; simpl.
  - tauto.
  - intuition congruence.
Qed.

Lemma NoDup_firstSeen ks : List.NoDup (Spec.firstSeen ks).
Proof.
  induction ks as [| a ks IH]; simpl; constructor.
  - rewrite List.filter_In. intros [_ H].
    rewrite String.eqb_refl in H. discriminate.
  - apply List.NoDup_filter, IH.
Qed.

Lemma firstSeen_snoc ks k :
  Spec.firstSeen (ks ++ [k]) =
    if existsb (String.eqb k) ks then Spec.firstSeen ks else Spec.firstSeen ks ++ [k].
Proof.
  induction ks as [| a ks IH]; simpl; [ reflexivity | ].
  rewrite IH.
  destruct (existsb (String.eqb k) ks); simpl.
  - rewrite orb_true_r. reflexivity.
  - rewrite orb_false_r, List.filter_app. simpl.
    destruct (String.eqb k a); simpl; [ rewrite app_nil_r | ]; reflexivity.
Qed.

Lemma groupOf_snoc es k i k' :
  groupOf (es ++ [(k, i)]) k' =
    (k', snd (groupOf es k') ++ if String.eqb k k' then [i] else []).
Proof.
  unfold groupOf. rewrite List.filter_app, map_app. simpl.
  destruct (String.eqb k k'); reflexivity.
Qed.

Lemma groupOf_snoc_other es k i L :
  ~ In k L -> map (groupOf (es ++ [(k, i)])) L = map (groupOf es) L.
Proof.
  induction L as [| a L IH]; simpl; intros Hk; [ reflexivity | ].
  rewrite IH by tauto. rewrite groupOf_snoc.
  destruct (String.eqb_spec k a) as [-> | _]; [ tauto | ].
  unfold groupOf; simpl. rewrite app_nil_r. reflexivity.
Qed.

Lemma pushNode_fresh es k i L :
  ~ In k L -> pushNode k i (map (groupOf es) L) = map (groupOf es) L ++ [(k, [i])].
Proof.
  induction L as [| a L IH]; simpl; intros Hk; [ reflexivity | ].
  destruct (String.eqb_spec a k) as [-> | _]; [ tauto | ].
  rewrite IH by tauto. reflexivity.
Qed.

Lemma pushNode_seen es k i L :
  List.NoDup L -> In k L ->
  pushNode k i (map (groupOf es) L) = map (groupOf (es ++ [(k, i)])) L.
Proof.
  induction L as [| a L IH]; simpl; intros Hnd Hk; [ tauto | ].
  apply List.NoDup_cons_iff in Hnd as [Ha Hnd].
  rewrite groupOf_snoc.
  destruct (String.eqb_spec a k) as [-> | Hne].
  - rewrite String.eqb_refl, groupOf_snoc_other by assumption. reflexivity.
  - destruct (String.eqb_spec k a) as [-> | _]; [ congruence | ].
    rewrite IH by tauto. unfold groupOf; simpl. rewrite app_nil_r. reflexivity.
Qed.

Lemma grouped_snoc es k i :
  Spec.grouped (es ++ [(k, i)]) = pushNode k i (Spec.grouped es).
Proof.
  unfold Spec.grouped.
  rewrite map_app. simpl. rewrite firstSeen_snoc.
  destruct (existsb (String.eqb k) (map fst es)) eqn:Hex.
  - symmetry. apply pushNode_seen; [ apply NoDup_firstSeen | ].
    apply In_firstSeen. apply existsb_exists in Hex as (k' & Hin & Heq).
    apply String.eqb_eq in Heq. subst. assumption.
  - assert (Hk : ~ In k (map fst es)).
    { intros Hin. enough (existsb (String.eqb k) (map fst es) = true) by congruence.
      apply existsb_exists. exists k. split; [ assumption | apply String.eqb_refl ]. }
    rewrite map_app, groupOf_snoc_other by (rewrite In_firstSeen; assumption).
    rewrite pushNode_fresh by (rewrite In_firstSeen; assumption).
    f_equal. simpl. rewrite groupOf_snoc, String.eqb_refl. unfold groupOf. simpl.
    replace (List.filter (fun e => String.eqb (fst e) k) es) with (@nil (string * NodeID));
      [ reflexivity | ].
    symmetry. clear Hex. induction es as [| [k' j] es IH]; simpl; [ reflexivity | ].
    simpl in Hk. destruct (String.eqb_spec k' k) as [-> | _]; [ tauto | ].
    apply IH. tauto.
Qed.

(** Inserting the entries one by one, as the loop does, builds [grouped]. *)
Lemma fold_pushNode_grouped es : fold_left push es [] = grouped es.
Proof.
  induction es as [| [k i] es IH] using rev_ind; [ reflexivity | ].
  rewrite fold_left_app. simpl. rewrite IH. unfold push. simpl.
  rewrite grouped_snoc. reflexivity.
Qed.

Lemma groupKey_spec propdb node : groupKey propdb node = GroupKey propdb node.
Proof. destruct propdb as [db |]; reflexivity. Qed.

Lemma isOpening_spec propdb node :
  isOpening propdb node = true <-> opening propdb node.
Proof.
  unfold isOpening, opening. split.
  - destruct propdb as [db |]; [ | discriminate ].
    destruct (getProperties db (dbid node) !! "Element:IfcExportAs") as [v |] eqn:Hv;
      [ | discriminate ].
    intros H. apply andb_true_iff in H as [_ H]. apply String.eqb_eq in H.
    subst v. exists db. split; [ reflexivity | assumption ].
  - intros (db & -> & ->). reflexivity.
Qed.

Lemma getObjectNodes_fold imf propdb l acc :
  fold_left (getObjectNodes_body imf propdb) l acc =
    mkNodeInfo
      (fold_left push (entriesOf imf propdb false l) (buildingNodes acc))
      (fold_left push (entriesOf imf propdb true l) (openingNodes acc))
      (messages acc ++ skipped imf l).
Proof.
  revert acc. induction l as [| i l IH]; intros [b o msgs]; simpl.
  - rewrite app_nil_r. reflexivity.
  - rewrite IH. unfold getObjectNodes_body.
    destruct (getNode imf i) as [node | kind]; simpl.
    + rewrite groupKey_spec.
      destruct (isOpening propdb node); simpl; reflexivity.
    + rewrite <- app_assoc. reflexivity.
Qed.

(** Both buckets, and the log, of [getObjectNodes]. *)
Lemma getObjectNodes_grouped imf propdb log :
  getObjectNodes imf propdb log =
    mkNodeInfo (grouped (entriesOf imf propdb false (sceneOrder imf)))
               (grouped (entriesOf imf propdb true (sceneOrder imf)))
               (log ++ skipped imf (sceneOrder imf)).
Proof.
  unfold getObjectNodes. rewrite getObjectNodes_fold. simpl.
  rewrite !fold_pushNode_grouped. reflexivity.
Qed.

Lemma In_entriesOf imf propdb cls l k i :
  In (k, i) (entriesOf imf propdb cls l) <->
  In i l /\ exists node, getNode imf i = ObjectNode node /\
            isOpening propdb node = cls /\ k = GroupKey propdb node.
Proof.
  unfold entriesOf. rewrite in_flat_map. split.
  - intros (j & Hj & Hin).
    destruct (getNode imf j) as [node |] eqn:Hnode; [ | destruct Hin ].
    destruct (Bool.eqb (isOpening propdb node) cls) eqn:Hcls; [ | destruct Hin ].
    destruct Hin as [[= <- <-] | []].
    split; [ assumption | ]. exists node. apply Bool.eqb_prop in Hcls. auto.
  - intros (Hi & node & Hnode & Hcls & ->). exists i. split; [ assumption | ].
    rewrite Hnode, Hcls, Bool.eqb_reflx. left. reflexivity.
Qed.

Lemma In_grouped es k nodes i :
  In (k, nodes) (grouped es) /\ In i nodes <-> In (k, i) es /\ nodes = snd (groupOf es k).
Proof.
  unfold grouped. rewrite in_map_iff. split.
  - intros [(k' & [= <- <-] & _) Hi]. simpl in Hi.
    apply in_map_iff in Hi as ([k0 i0] & <- & Hin).
    apply List.filter_In in Hin as [Hin Hk]. simpl in Hk.
    apply String.eqb_eq in Hk. subst k0. auto.
  - intros [Hin ->]. split.
    + exists k. split; [ reflexivity | ].
      apply In_firstSeen, in_map_iff. exists (k, i). auto.
    + simpl. apply in_map_iff. exists (k, i). split; [ reflexivity | ].
      apply List.filter_In. split; [ assumption | apply String.eqb_refl ].
Qed.

Lemma In_members bucket i :
  In i (members bucket) <-> exists k nodes, In (k, nodes) bucket /\ In i nodes.
Proof.
  unfold members. rewrite in_concat. split.
  - intros (nodes & Hn & Hi). apply in_map_iff in Hn as ([k ns] & <- & Hin). eauto.
  - intros (k & nodes & Hin & Hi). exists nodes. split; [ | assumption ].
    apply in_map_iff. exists (k, nodes). auto.
Qed.

Lemma In_members_grouped es i :
  In i (members (grouped es)) <-> exists k, In (k, i) es.
Proof.
  rewrite In_members. split.
  - intros (k & nodes & H). exists k. apply In_grouped in H. tauto.
  - intros (k & H). exists k, (snd (groupOf es k)). apply In_grouped. auto.
Qed.

Lemma NoDup_keys_grouped es : List.NoDup (map fst (grouped es)).
Proof.
  unfold grouped. rewrite map_map. simpl. rewrite map_id. apply NoDup_firstSeen.
Qed.

Lemma In_sceneOrder imf i : In i (sceneOrder imf) <-> (i < getNodeCount imf)%nat.
Proof. unfold sceneOrder. rewrite in_seq. lia. Qed.

Lemma entriesOf_no_database imf l : entriesOf imf None true l = [].
Proof.
  unfold entriesOf. induction l as [| j l IH]; [ reflexivity | ].
  cbn [flat_map]. rewrite IH. destruct (getNode imf j); reflexivity.
Qed.

(** C5: an object node of the scene is in the opening bucket exactly when
    the property database is present and gives "IfcOpeningElement" for
    "Element:IfcExportAs", and in the regular bucket otherwise; without a
    database the opening bucket is empty and the node is in the regular group
    named [dbid-<dbid>]. [getObjectNodes] is total. *)
Theorem getObjectNodes_classification (imf : IScene) (propdb : option PropDbReader)
    (log : list string) (i : NodeID) (node : IObjectNode) :
  (i < getNodeCount imf)%nat ->
  getNode imf i = ObjectNode node ->
  let info := getObjectNodes imf propdb log in
  (In i (members (openingNodes info)) <-> opening propdb node) /\
  (In i (members (buildingNodes info)) <-> ~ opening propdb node) /\
  (propdb = None ->
   openingNodes info = [] /\
   exists nodes,
     In ("dbid-" +:+ JS.Z_toString (dbid node), nodes) (buildingNodes info) /\
     In i nodes).
Proof.
  intros Hi Hnode info. subst info. rewrite getObjectNodes_grouped. simpl.
  assert (Hcls : forall cls,
    In i (members (grouped (entriesOf imf propdb cls (sceneOrder imf)))) <->
    isOpening propdb node = cls).
  { intros cls. rewrite In_members_grouped. split.
    - intros (k & H). apply In_entriesOf in H as (_ & node' & Hn' & Hc & _).
      congruence.
    - intros Hc. exists (GroupKey propdb node). apply In_entriesOf.
      split; [ apply In_sceneOrder; assumption | eauto ]. }
  split; [ | split ].
  - rewrite Hcls. apply isOpening_spec.
  - rewrite Hcls, <- isOpening_spec. destruct (isOpening propdb node); intuition congruence.
  - intros ->. split.
    + rewrite entriesOf_no_database. reflexivity.
    + exists (snd (groupOf (entriesOf imf None false (sceneOrder imf))
                           ("dbid-" +:+ JS.Z_toString (dbid node)))).
      apply In_grouped. split; [ | reflexivity ].
      apply In_entriesOf. split; [ apply In_sceneOrder; assumption | ].
      exists node. auto.
Qed.

Lemma getObjectNodes_classification_witness :
  In 2%nat (members (openingNodes
    (getObjectNodes Samples.sceneGroups (Some Samples.propdbGroups) []))) <->
  opening (Some Samples.propdbGroups) (mkObjectNode 2 None 0).
Proof.
  apply (getObjectNodes_classification Samples.sceneGroups (Some Samples.propdbGroups)
           [] 2 (mkObjectNode 2 None 0)).
  - simpl. lia.
  - reflexivity.
Defined.

(** C6: the buckets of [getObjectNodes] are the object nodes of the scene
    grouped by GroupKey (the recursive lookup of "IFC:GLOBALID" then
    "Element:IfcGUID", else [dbid-<dbid>]): one group per key in each bucket,
    groups in order of first occurrence in the scene, nodes of a group in
    scene order; every object node is in the group named by its GroupKey in
    the bucket of its classification, and two object nodes with the same
    GroupKey and classification are in the same group. *)
Theorem getObjectNodes_groups (imf : IScene) (propdb : option PropDbReader)
    (log : list string) :
  let info := getObjectNodes imf propdb log in
  buildingNodes info = grouped (entriesOf imf propdb false (sceneOrder imf)) /\
  openingNodes info = grouped (entriesOf imf propdb true (sceneOrder imf)) /\
  List.NoDup (map fst (buildingNodes info)) /\
  List.NoDup (map fst (openingNodes info)) /\
  (forall i node,
     (i < getNodeCount imf)%nat -> getNode imf i = ObjectNode node ->
     exists nodes,
       In (GroupKey propdb node, nodes)
          (if isOpening propdb node then openingNodes info else buildingNodes info) /\
       In i nodes) /\
  (forall i j node node',
     (i < getNodeCount imf)%nat -> getNode imf i = ObjectNode node ->
     (j < getNodeCount imf)%nat -> getNode imf j = ObjectNode node' ->
     GroupKey propdb node = GroupKey propdb node' ->
     isOpening propdb node = isOpening propdb node' ->
     exists nodes,
       In (GroupKey propdb node, nodes)
          (if isOpening propdb node then openingNodes info else buildingNodes info) /\
       In i nodes /\ In j nodes).
Proof.
  intros info. subst info. rewrite getObjectNodes_grouped. simpl.
  assert (Hentry : forall i node,
    (i < getNodeCount imf)%nat -> getNode imf i = ObjectNode node ->
    In (GroupKey propdb node, i)
       (entriesOf imf propdb (isOpening propdb node) (sceneOrder imf))).
  { intros i node Hi Hnode. apply In_entriesOf.
    split; [ apply In_sceneOrder; assumption | eauto ]. }
  repeat split; try apply NoDup_keys_grouped.
  - intros i node Hi Hnode.
    exists (snd (groupOf (entriesOf imf propdb (isOpening propdb node) (sceneOrder imf))
                         (GroupKey propdb node))).
    pose proof (Hentry i node Hi Hnode) as H.
    destruct (isOpening propdb node); apply In_grouped; auto.
  - intros i j node node' Hi Hnode Hj Hnode' Hkey Hcls.
    exists (snd (groupOf (entriesOf imf propdb (isOpening propdb node) (sceneOrder imf))
                         (GroupKey propdb node))).
    pose proof (Hentry i node Hi Hnode) as H.
    pose proof (Hentry j node' Hj Hnode') as H'.
    rewrite <- Hkey, <- Hcls in H'.
    assert (Hboth : forall k n es nodes, In (k, n) es -> nodes = snd (groupOf es k) ->
                                         In (k, nodes) (grouped es) /\ In n nodes).
    { intros k n es nodes ? ?. apply In_grouped. auto. }
    destruct (isOpening propdb node);
      (split; [ eapply Hboth; [ exact H | reflexivity ] | ];
       split; [ eapply Hboth; [ exact H | reflexivity ]
              | eapply Hboth; [ exact H' | reflexivity ] ]).
Qed.

Lemma getObjectNodes_groups_witness :
  let info := getObjectNodes Samples.sceneGroups (Some Samples.propdbGroups) [] in
  buildingNodes info = [("GUID-A", [0; 3]%nat)] /\
  openingNodes info = [("dbid-2", [2]%nat)] /\
  exists nodes, In ("GUID-A", nodes) (buildingNodes info) /\ In 3%nat nodes.
Proof.
  pose proof (getObjectNodes_groups Samples.sceneGroups (Some Samples.propdbGroups) [])
    as (Hb & Ho & _ & _ & Hin & _).
  split; [ rewrite Hb; reflexivity | split; [ rewrite Ho; reflexivity | ] ].
  apply (Hin 3%nat (mkObjectNode 3 None 0)); [ simpl; lia | reflexivity ].
Defined.

End Grouping.

(** ** Streaming writer *)

Section Strings.

Lemma append_cons (ch : ascii) (a b : string) :
  String ch a +:+ b = String ch (a +:+ b).
Proof. reflexivity. Qed.

Lemma append_assoc (a b c : string) : (a +:+ b) +:+ c = a +:+ (b +:+ c).
Proof.
  induction a as [| ch a IH]; [ reflexivity | ].
  rewrite !append_cons, IH. reflexivity.
Qed.

Lemma append_empty_r (a : string) : a +:+ "" = a.
Proof.
  induction a as [| ch a IH]; [ reflexivity | ].
  rewrite append_cons, IH. reflexivity.
Qed.

Lemma length_append (a b : string) :
  String.length (a +:+ b) = (String.length a + String.length b)%nat.
Proof.
  induction a as [| ch a IH]; [ reflexivity | ].
  rewrite append_cons. simpl. rewrite IH. reflexivity.
Qed.

Lemma append_LF_neq (a : string) : a +:+ JS.LF <> a.
Proof.
  intros H. apply (f_equal String.length) in H.
  rewrite length_append in H. simpl in H. lia.
Qed.

Lemma terminated_app (a b : list string) :
  terminated (a ++ b) = terminated a +:+ terminated b.
Proof.
  induction a as [| l a IH]; simpl; [ reflexivity | ].
  rewrite IH, !append_assoc. reflexivity.
Qed.

Lemma join_cons (l : string) (ls : list string) :
  ls <> [] -> JS.join JS.LF (l :: ls) = l +:+ JS.LF +:+ JS.join JS.LF ls.
Proof. destruct ls; [ congruence | reflexivity ]. Qed.

Lemma join_terminated (ls : list string) :
  ls <> [] -> JS.join JS.LF ls +:+ JS.LF = terminated ls.
Proof.
  induction ls as [| l ls IH]; [ congruence | intros _ ].
  destruct ls as [| l' ls]; [ reflexivity | ].
  rewrite join_cons by discriminate.
  change (terminated (l :: l' :: ls)) with (l +:+ JS.LF +:+ terminated (l' :: ls)).
  rewrite <- IH by discriminate. rewrite !append_assoc. reflexivity.
Qed.

(** Whole lines followed by a joined rest are the join of all lines. *)
Lemma join_app (a b : list string) :
  b <> [] -> JS.join JS.LF (a ++ b) = terminated a +:+ JS.join JS.LF b.
Proof.
  intros Hb. induction a as [| l a IH]; [ reflexivity | ].
  simpl app. rewrite join_cons by (destruct a; [ assumption | discriminate ]).
  rewrite IH. simpl. rewrite !append_assoc. reflexivity.
Qed.

End Strings.

Section Streaming.

Variable skipNormals : bool.
Variable threshold : N.
Variable scene : IScene.
Variable rootScale : Q.

Local Abbreviation flush := (flushIfFull threshold).
Local Abbreviation node_step := (writeNode skipNormals threshold scene rootScale).
Local Abbreviation group_step := (writeGroup skipNormals threshold scene rootScale).
Local Abbreviation lines_of := (memberLines skipNormals scene rootScale).
Local Abbreviation count_of := (vertexCount scene).

Lemma flushIfFull_full st :
  (threshold < N.of_nat (length (output st)))%N ->
  flush st = mkWState (file st +:+ JS.join JS.LF (output st) +:+ JS.LF) []
                      (indexOffset st) (logged st).
Proof.
  intros H. unfold flushIfFull.
  apply N.ltb_lt in H. rewrite H. reflexivity.
Qed.

Lemma flushIfFull_within st :
  (N.of_nat (length (output st)) <= threshold)%N -> flush st = st.
Proof.
  intros H. unfold flushIfFull.
  apply N.ltb_ge in H. rewrite H. reflexivity.
Qed.

Lemma flushIfFull_indexOffset st : indexOffset (flush st) = indexOffset st.
Proof. unfold flushIfFull. destruct (_ <? _)%N; reflexivity. Qed.

Lemma flushIfFull_logged st : logged (flush st) = logged st.
Proof. unfold flushIfFull. destruct (_ <? _)%N; reflexivity. Qed.

(** A flush moves whole lines from the buffer to the file. *)
Lemma flushIfFull_holds lines st : holds lines st -> holds lines (flush st).
Proof.
  intros (flushed & Hlines & Hfile).
  destruct (N.lt_ge_cases threshold (N.of_nat (length (output st)))) as [Hfull | Hin].
  - rewrite flushIfFull_full by assumption.
    exists (flushed ++ output st). simpl. split.
    + rewrite app_nil_r. assumption.
    + rewrite Hfile, terminated_app, join_terminated; [ reflexivity | ].
      destruct (output st); [ simpl in Hfull; lia | discriminate ].
  - rewrite flushIfFull_within by assumption. exists flushed. auto.
Qed.

Lemma writeNode_mesh n node g st :
  getNode scene n = ObjectNode node ->
  getGeometry scene (geometry node) = MeshGeometry g ->
  node_step n st = Done (flush (pushed skipNormals scene rootScale n st)) /\
  lines_of (indexOffset st) n = meshLines skipNormals rootScale node g (indexOffset st) /\
  count_of n = count3 (getVertices g).
Proof.
  intros Hn Hg.
  unfold writeNode, pushed, memberLines, vertexCount.
  rewrite Hn, Hg. auto.
Qed.

Lemma writeNode_notMesh n st :
  notMesh scene n ->
  node_step n st = Done st /\ (forall off, lines_of off n = []) /\ count_of n = 0%N.
Proof.
  intros (node & kind & Hn & Hg).
  unfold writeNode, memberLines, vertexCount.
  rewrite Hn, Hg. auto.
Qed.

Lemma isObject_cases n : isObject scene n -> isMesh scene n \/ notMesh scene n.
Proof.
  intros (node & Hn).
  destruct (getGeometry scene (geometry node)) as [g | kind] eqn:Hg.
  - left. exists node, g. auto.
  - right. exists node, kind. auto.
Qed.

Lemma writeNode_advanced n st :
  isObject scene n ->
  exists st', node_step n st = Done st' /\
              advanced st (lines_of (indexOffset st) n) (count_of n) st'.
Proof.
  intros Hobj. destruct (isObject_cases n Hobj) as [(node & g & Hn & Hg) | Hnm].
  - destruct (writeNode_mesh n node g st Hn Hg) as (Hstep & _ & _).
    eexists. split; [ exact Hstep | ].
    split; [ | split ].
    + intros lines (flushed & Hlines & Hfile). apply flushIfFull_holds.
      exists flushed. simpl. split; [ | assumption ].
      rewrite Hlines, <- app_assoc. reflexivity.
    + rewrite flushIfFull_indexOffset. reflexivity.
    + rewrite flushIfFull_logged. reflexivity.
  - destruct (writeNode_notMesh n st Hnm) as (Hstep & Hl & Hc).
    exists st. split; [ assumption | ]. rewrite Hl, Hc.
    split; [ | split ]; [ | lia | reflexivity ].
    intros lines H. rewrite app_nil_r. assumption.
Qed.

Lemma advanced_trans st1 st2 st3 l1 l2 v1 v2 :
  advanced st1 l1 v1 st2 -> advanced st2 l2 v2 st3 ->
  advanced st1 (l1 ++ l2) (v1 + v2) st3.
Proof.
  intros (H1 & O1 & L1) (H2 & O2 & L2). split; [ | split ].
  - intros lines H. rewrite app_assoc. auto.
  - lia.
  - congruence.
Qed.

Lemma forEach_writeNode_advanced nodes st :
  Forall (isObject scene) nodes ->
  exists st', forEach node_step nodes st = Done st' /\
              advanced st (membersLines skipNormals scene rootScale (indexOffset st) nodes)
                       (vertexTotal scene nodes) st'.
Proof.
  intros Hall. revert st. induction Hall as [| n nodes Hn _ IH]; intros st.
  - exists st. split; [ reflexivity | ]. split; [ | split ]; simpl.
    + intros lines H. rewrite app_nil_r. assumption.
    + lia.
    + reflexivity.
  - destruct (writeNode_advanced n st Hn) as (st1 & Hstep & Hadv).
    destruct (IH st1) as (st2 & Hrest & Hadv').
    exists st2. simpl. rewrite Hstep. simpl. split; [ assumption | ].
    destruct Hadv as (? & Hoff & ?).
    rewrite Hoff in Hadv'. eapply advanced_trans; [ | eassumption ].
    split; auto.
Qed.

Lemma vertexTotal_app l1 l2 :
  vertexTotal scene (l1 ++ l2) = (vertexTotal scene l1 + vertexTotal scene l2)%N.
Proof. induction l1 as [| n l1 IH]; simpl; lia. Qed.

Lemma forEach_writeGroup_advanced bucket st :
  Forall (isObject scene) (members bucket) ->
  exists st', forEach group_step bucket st = Done st' /\
              advanced st (bucketLines skipNormals scene rootScale (indexOffset st) bucket)
                       (vertexTotal scene (members bucket)) st'.
Proof.
  revert st. induction bucket as [| [id nodes] bucket IH]; intros st Hall.
  - exists st. split; [ reflexivity | ]. split; [ | split ]; simpl.
    + intros lines H. rewrite app_nil_r. assumption.
    + lia.
    + reflexivity.
  - unfold members in Hall. simpl in Hall. apply Forall_app in Hall as [Hnodes Hrest].
    set (st0 := mkWState (file st) (output st ++ ["o " +:+ id]) (indexOffset st) (logged st)).
    destruct (forEach_writeNode_advanced nodes st0 Hnodes) as (st1 & Hstep & Hadv).
    destruct (IH st1 Hrest) as (st2 & Hstep' & Hadv').
    exists st2. split.
    + cbn [forEach]. unfold writeGroup at 1. fold st0.
      rewrite Hstep. exact Hstep'.
    + assert (H0 : advanced st ["o " +:+ id] 0 st0).
      { split; [ | split ]; simpl; [ | lia | reflexivity ].
        intros lines (flushed & Hl & Hf). exists flushed. simpl.
        split; [ | assumption ]. rewrite Hl, <- app_assoc. reflexivity. }
      pose proof (advanced_trans _ _ _ _ _ _ _ H0 Hadv) as H1.
      destruct Hadv as (_ & Hoff & _). rewrite Hoff in Hadv'.
      pose proof (advanced_trans _ _ _ _ _ _ _ H1 Hadv') as H2.
      unfold members. simpl. rewrite vertexTotal_app.
      replace (indexOffset st0) with (indexOffset st) in * by reflexivity.
      simpl in H2. exact H2.
Qed.

End Streaming.

Section WriteObjects.

Variable skipNormals : bool.
Variable scene : IScene.
Variable rootScale : Q.

(** For every threshold, [writeObjectsWith] completes on a bucket of object
    nodes; the file consists of whole lines closed by the separator followed
    by the join of the last buffer, and these are the lines of the unbounded
    write. *)
Lemma writeObjectsWith_content threshold bucket log :
  Forall (isObject scene) (members bucket) ->
  exists st flushed,
    writeObjectsWith skipNormals threshold scene rootScale bucket log = Done st /\
    bucketLines skipNormals scene rootScale 1 bucket = flushed ++ output st /\
    file st = terminated flushed +:+ JS.join JS.LF (output st) /\
    indexOffset st = (1 + vertexTotal scene (members bucket))%N /\
    logged st = log.
Proof.
  intros Hall.
  destruct (forEach_writeGroup_advanced skipNormals threshold scene rootScale bucket
              (mkWState "" [] 1 log) Hall) as (st & Hrun & Hholds & Hoff & Hlog).
  destruct (Hholds [] (ex_intro _ [] (conj eq_refl eq_refl))) as (flushed & Hl & Hf).
  exists (mkWState (file st +:+ JS.join JS.LF (output st)) (output st)
                   (indexOffset st) (logged st)), flushed.
  unfold writeObjectsWith. rewrite Hrun. simpl in *.
  rewrite Hf. auto.
Qed.

(** The content of the file against the unbounded write: equal, except for
    one more separator when the last buffer is empty after a flush. *)
Lemma writeObjectsWith_unbounded threshold bucket log :
  Forall (isObject scene) (members bucket) ->
  exists st,
    writeObjectsWith skipNormals threshold scene rootScale bucket log = Done st /\
    file st =
      unboundedWrite skipNormals scene rootScale bucket +:+
      (if bool_decide (output st = [] /\ file st <> "") then JS.LF else "").
Proof.
  intros Hall.
  destruct (writeObjectsWith_content threshold bucket log Hall)
    as (st & flushed & Hrun & Hlines & Hfile & _).
  exists st. split; [ assumption | ].
  unfold unboundedWrite. rewrite Hlines.
  destruct (output st) as [| l out] eqn:Hout.
  - rewrite app_nil_r. rewrite Hfile. simpl. rewrite append_empty_r.
    destruct flushed as [| f flushed].
    + rewrite bool_decide_eq_false_2 by (intros [_ H]; apply H; reflexivity).
      reflexivity.
    + rewrite bool_decide_eq_true_2.
      * symmetry. apply join_terminated. discriminate.
      * split; [ reflexivity | ]. simpl. destruct f; discriminate.
  - rewrite bool_decide_eq_false_2 by (intros [H _]; discriminate).
    rewrite append_empty_r, join_app by discriminate. assumption.
Qed.

End WriteObjects.

Section Chunking.

Variable skipNormals : bool.
Variable scene : IScene.
Variable rootScale : Q.

(** A bucket of one group with one mesh member, the buffer exceeding the
    threshold after the mesh: the flush closes the last line with a
    separator, and the final append adds nothing. *)
Lemma single_mesh_flushed threshold id n node g log :
  getNode scene n = ObjectNode node ->
  getGeometry scene (geometry node) = MeshGeometry g ->
  (threshold < 1 + N.of_nat (length (meshLines skipNormals rootScale node g 1)))%N ->
  exists st,
    writeObjectsWith skipNormals threshold scene rootScale [(id, [n])] log = Done st /\
    file st = unboundedWrite skipNormals scene rootScale [(id, [n])] +:+ JS.LF.
Proof.
  intros Hn Hg Hfull.
  set (st0 := mkWState "" ([] ++ ["o " +:+ id]) 1 log).
  destruct (writeNode_mesh skipNormals threshold scene rootScale n node g st0 Hn Hg)
    as (Hstep & Hlines & _).
  eexists. split.
  - unfold writeObjectsWith.
    cbn [forEach writeGroup file output indexOffset logged]. fold st0.
    rewrite Hstep. cbn [andThen]. reflexivity.
  - rewrite flushIfFull_full.
    + unfold unboundedWrite. simpl. rewrite !app_nil_r, append_empty_r. reflexivity.
    + unfold pushed. cbn [output]. rewrite Hlines. subst st0.
      cbn [output indexOffset]. rewrite !length_app. cbn [length]. lia.
Qed.

(** The same bucket when the buffer stays within the threshold. *)
Lemma single_mesh_buffered threshold id n node g log :
  getNode scene n = ObjectNode node ->
  getGeometry scene (geometry node) = MeshGeometry g ->
  (1 + N.of_nat (length (meshLines skipNormals rootScale node g 1)) <= threshold)%N ->
  exists st,
    writeObjectsWith skipNormals threshold scene rootScale [(id, [n])] log = Done st /\
    file st = unboundedWrite skipNormals scene rootScale [(id, [n])].
Proof.
  intros Hn Hg Hfits.
  set (st0 := mkWState "" ([] ++ ["o " +:+ id]) 1 log).
  destruct (writeNode_mesh skipNormals threshold scene rootScale n node g st0 Hn Hg)
    as (Hstep & Hlines & _).
  eexists. split.
  - unfold writeObjectsWith.
    cbn [forEach writeGroup file output indexOffset logged]. fold st0.
    rewrite Hstep. cbn [andThen]. reflexivity.
  - rewrite flushIfFull_within.
    + unfold unboundedWrite. simpl. rewrite !app_nil_r. reflexivity.
    + unfold pushed. cbn [output]. rewrite Hlines. subst st0.
      cbn [output indexOffset]. rewrite !length_app. cbn [length]. lia.
Qed.

End Chunking.

Lemma vectors_repeat (a b c : Q) (n : nat) :
  vectors (concat (repeat [a; b; c] n)) = repeat (THREE.mkVector3 a b c) n.
Proof. induction n as [| n IH]; simpl; [ | rewrite IH ]; reflexivity. Qed.

Lemma meshLines_mesh50000 node :
  length (meshLines false 1 node Samples.mesh50000 1) = N.to_nat 50000.
Proof.
  unfold meshLines, Samples.mesh50000, writtenNormals.
  cbn [getVertices getNormals getIndices triangles map].
  rewrite vectors_repeat, !app_nil_r, length_map, repeat_length. reflexivity.
Qed.

(** C1, on a bucket whose only member is a mesh of 50000 vertices (50001
    lines with the header): with the threshold of 50000 the file is the
    unbounded write followed by one more separator, while a threshold of 10^6
    gives the unbounded write itself; the two files differ. *)
Theorem writeObjects_flush_changes_content :
  let bucket := [("dbid-7", [0%nat])] in
  let single := unboundedWrite false Samples.scene50000 1 bucket in
  (exists st, writeObjects false bucket Samples.scene50000 1 [] = Done st /\
              file st = single +:+ JS.LF) /\
  (exists st, writeObjectsWith false 1000000 Samples.scene50000 1 bucket [] = Done st /\
              file st = single) /\
  single +:+ JS.LF <> single.
Proof.
  intros bucket single. split; [ | split ].
  - apply (single_mesh_flushed false Samples.scene50000 1 50000 "dbid-7" 0%nat
             (mkObjectNode 7 None 0) Samples.mesh50000 []);
      [ reflexivity | reflexivity | rewrite meshLines_mesh50000; lia ].
  - apply (single_mesh_buffered false Samples.scene50000 1 1000000 "dbid-7" 0%nat
             (mkObjectNode 7 None 0) Samples.mesh50000 []);
      [ reflexivity | reflexivity | rewrite meshLines_mesh50000; lia ].
  - apply append_LF_neq.
Qed.

(** The same on the single triangle of [scene7], thresholds 1 and 10^6. *)
Lemma writeObjectsWith_thresholds_scene7 :
  writeObjectsWith false 1 Samples.scene7 1 [("dbid-7", [0%nat])] [] =
    Done (mkWState ("o dbid-7" +:+ JS.LF +:+ "v 0 0 0" +:+ JS.LF +:+ "v 1 0 0" +:+ JS.LF +:+
                    "v 0 1 0" +:+ JS.LF +:+ "f 1 2 3" +:+ JS.LF) [] 4 []) /\
  file_of (writeObjectsWith false 1000000 Samples.scene7 1 [("dbid-7", [0%nat])] []) =
    "o dbid-7" +:+ JS.LF +:+ "v 0 0 0" +:+ JS.LF +:+ "v 1 0 0" +:+ JS.LF +:+
    "v 0 1 0" +:+ JS.LF +:+ "f 1 2 3".
Proof. split; reflexivity. Qed.

(** [writeObjects] leaves the log as it found it, on every bucket of object
    nodes. *)
Lemma writeObjects_logged skipNormals bucket scene rootScale log :
  Forall (isObject scene) (members bucket) ->
  exists st, writeObjects skipNormals bucket scene rootScale log = Done st /\
             logged st = log.
Proof.
  intros Hall.
  destruct (writeObjectsWith_content skipNormals scene rootScale 50000 bucket log Hall)
    as (st & _ & Hrun & _ & _ & _ & Hlog).
  exists st. auto.
Qed.

(** C7, on a bucket whose only member is an object node with a geometry that
    is not a mesh: [writeObjects] skips the member and the log callback
    receives nothing for it; the whole run logs only its last message. *)
Theorem writeObjects_skip_is_silent :
  writeObjects false [("dbid-7", [0%nat])] Samples.sceneLines 1 [] =
    Done (mkWState "o dbid-7" ["o dbid-7"] 1 []) /\
  write false Samples.sceneLines None =
    inr (mkWritten "o dbid-7" "" ["Finished writing OBJ"]).
Proof. split; reflexivity. Qed.

(** The members of the buckets of [getObjectNodes] are object nodes. *)
Lemma getObjectNodes_members imf propdb log :
  Forall (isObject imf) (members (buildingNodes (getObjectNodes imf propdb log))) /\
  Forall (isObject imf) (members (openingNodes (getObjectNodes imf propdb log))).
Proof.
  rewrite getObjectNodes_grouped. simpl.
  split; apply List.Forall_forall; intros i Hi;
    apply In_members_grouped in Hi as (k & Hk);
    apply In_entriesOf in Hk as (_ & node & Hnode & _); exists node; assumption.
Qed.

(** [write] never throws: both files are written, each by its own run of
    [writeObjects]. *)
Lemma write_completes skipNormals imf propdb :
  let info := getObjectNodes imf propdb [] in
  let rootScale := getRootScale imf in
  exists regular opening,
    writeObjects skipNormals (buildingNodes info) imf rootScale (messages info)
      = Done regular /\
    writeObjects skipNormals (openingNodes info) imf rootScale (messages info)
      = Done opening /\
    write skipNormals imf propdb =
      inr (mkWritten (file regular) (file opening)
                     (messages info ++ ["Finished writing OBJ"])).
Proof.
  intros info rootScale.
  destruct (getObjectNodes_members imf propdb []) as [Hb Ho].
  destruct (writeObjects_logged skipNormals _ imf rootScale (messages info) Hb)
    as (regular & Hr & Hlr).
  destruct (writeObjects_logged skipNormals _ imf rootScale (messages info) Ho)
    as (opening & Hop & Hlo).
  exists regular, opening. split; [ assumption | split; [ assumption | ] ].
  subst info rootScale. unfold write. cbv zeta.
  rewrite Hr, Hlr, Hop, Hlo. reflexivity.
Qed.




Section Groups.

Variable skipNormals : bool.
Variable threshold : N.
Variable scene : IScene.
Variable rootScale : Q.

Lemma forEach_notMesh nodes st :
  Forall (notMesh scene) nodes ->
  forEach (writeNode skipNormals threshold scene rootScale) nodes st = Done st.
Proof.
  induction 1 as [| n nodes Hn _ IH]; [ reflexivity | ].
  cbn [forEach].
  destruct (writeNode_notMesh skipNormals threshold scene rootScale n st Hn) as (-> & _).
  exact IH.
Qed.

(** C9: the header line of a group is pushed before its members are
    visited: when no member has a mesh, the group contributes its header
    line and nothing else (a bucket of that one group is the file "o <id>");
    when the first member is not an object node, the exception finds the
    header already in the buffer. *)
Theorem writeGroup_header_first (id : string) (nodes : list NodeID) (st : WState) :
  let headed :=
    mkWState (file st) (output st ++ ["o " +:+ id]) (indexOffset st) (logged st) in
  (Forall (notMesh scene) nodes ->
   writeGroup skipNormals threshold scene rootScale (id, nodes) st = Done headed /\
   forall log,
     writeObjectsWith skipNormals threshold scene rootScale [(id, nodes)] log =
       Done (mkWState ("o " +:+ id) ["o " +:+ id] 1 log)) /\
  (forall n rest kind,
     nodes = n :: rest -> getNode scene n = OtherNode kind ->
     writeGroup skipNormals threshold scene rootScale (id, nodes) st =
       Thrown ("Node kind " +:+ kind +:+ " should have been excluded") headed).
Proof.
  intros headed. split.
  - intros Hall. split.
    + unfold writeGroup. apply forEach_notMesh. assumption.
    + intros log. unfold writeObjectsWith. cbn [forEach writeGroup].
      rewrite forEach_notMesh by assumption. reflexivity.
  - intros n rest kind -> Hn. unfold writeGroup. cbn [forEach].
    unfold writeNode. rewrite Hn. reflexivity.
Qed.

(** A mesh member pushes all its lines before the buffer is compared
    with the threshold, once: the buffer then holds its former lines and all
    lines of the mesh; above the threshold all of them go to the file in one
    flush, otherwise all of them stay buffered. The buffer is within the
    threshold after the comparison, and a buffer of exactly [threshold]
    lines grows to [threshold] plus the line count of the mesh before it is
    flushed. *)
Theorem writeNode_checks_after_geometry (n : NodeID) (node : IObjectNode)
    (g : IMeshGeometry) (st : WState) :
  getNode scene n = ObjectNode node ->
  getGeometry scene (geometry node) = MeshGeometry g ->
  let new := meshLines skipNormals rootScale node g (indexOffset st) in
  let buffered := output st ++ new in
  exists st',
    writeNode skipNormals threshold scene rootScale n st = Done st' /\
    ((threshold < N.of_nat (length buffered))%N ->
     file st' = file st +:+ JS.join JS.LF buffered +:+ JS.LF /\ output st' = []) /\
    ((N.of_nat (length buffered) <= threshold)%N ->
     file st' = file st /\ output st' = buffered) /\
    N.of_nat (length buffered) =
      (N.of_nat (length (output st)) + N.of_nat (length new))%N /\
    (N.of_nat (length (output st)) = threshold ->
     N.of_nat (length buffered) = (threshold + N.of_nat (length new))%N) /\
    (N.of_nat (length (output st')) <= threshold)%N.
Proof.
  intros Hn Hg new buffered.
  destruct (writeNode_mesh skipNormals threshold scene rootScale n node g st Hn Hg)
    as (Hstep & Hlines & _).
  eexists. split; [ exact Hstep | ].
  assert (Hout : output (pushed skipNormals scene rootScale n st) = buffered).
  { unfold pushed. cbn [output]. rewrite Hlines. reflexivity. }
  assert (Hlen : N.of_nat (length buffered) =
                 (N.of_nat (length (output st)) + N.of_nat (length new))%N).
  { subst buffered. rewrite length_app. lia. }
  split; [ | split; [ | split; [ | split ] ] ].
  - intros Hfull. rewrite flushIfFull_full by (rewrite Hout; assumption).
    cbn [file output]. rewrite Hout. auto.
  - intros Hfits. rewrite flushIfFull_within by (rewrite Hout; assumption).
    rewrite Hout. auto.
  - exact Hlen.
  - intros Hth. rewrite Hlen, Hth. reflexivity.
  - destruct (N.lt_ge_cases threshold (N.of_nat (length buffered))) as [Hfull | Hfits].
    + rewrite flushIfFull_full by (rewrite Hout; assumption). cbn [output length]. lia.
    + rewrite flushIfFull_within by (rewrite Hout; assumption). rewrite Hout. assumption.
Qed.

End Groups.

Lemma writeGroup_header_first_witness :
  writeObjectsWith false 50000 Samples.sceneLines 1 [("dbid-7", [0%nat])] [] =
    Done (mkWState "o dbid-7" ["o dbid-7"] 1 []).
Proof.
  apply (writeGroup_header_first false 50000 Samples.sceneLines 1 "dbid-7" [0%nat]
           (mkWState "" [] 1 [])).
  repeat constructor. exists (mkObjectNode 7 None 0), "1". split; reflexivity.
Defined.

(** A buffer of one line against a threshold of one line: the triangle adds
    four lines and all five are flushed together. *)
Lemma writeNode_checks_after_geometry_witness :
  exists st',
    writeNode false 1 Samples.scene7 1 0 (mkWState "" ["o dbid-7"] 1 []) = Done st' /\
    file st' = JS.join JS.LF ["o dbid-7"; "v 0 0 0"; "v 1 0 0"; "v 0 1 0"; "f 1 2 3"]
               +:+ JS.LF /\
    output st' = [].
Proof.
  destruct (writeNode_checks_after_geometry false 1 Samples.scene7 1 0%nat
              (mkObjectNode 7 None 0) Samples.triangle (mkWState "" ["o dbid-7"] 1 [])
              eq_refl eq_refl) as (st' & Hstep & Hfull & _ & _).
  exists st'. split; [ exact Hstep | ].
  apply Hfull. vm_compute. reflexivity.
Defined.

(** Header lines are pushed without a comparison: groups without a mesh
    member fill the buffer beyond any threshold. *)
Lemma headers_are_not_flushed :
  writeObjectsWith false 0 Samples.sceneLines 1 [("a", [0%nat]); ("b", [0%nat])] [] =
    Done (mkWState ("o a" +:+ JS.LF +:+ "o b") ["o a"; "o b"] 1 []).
Proof. reflexivity. Qed.

(** * Further properties of the writer *)

Import Lines.

Section Streamed.

Variable threshold : N.

Lemma streamed_init offset log : streamed threshold [] (mkWState "" [] offset log).
Proof. exists []. auto. Qed.

Lemma streamed_push lines new st st' :
  streamed threshold lines st ->
  file st' = file st -> output st' = output st ++ new ->
  streamed threshold (lines ++ new) st'.
Proof.
  intros (flushed & Hl & Hf & Hn) Hfile Hout. exists flushed.
  rewrite Hfile, Hout, Hl, <- app_assoc. auto.
Qed.

Lemma streamed_flush lines st :
  streamed threshold lines st -> streamed threshold lines (flushIfFull threshold st).
Proof.
  intros (flushed & Hl & Hf & Hn).
  destruct (N.lt_ge_cases threshold (N.of_nat (length (output st)))) as [Hfull | Hin].
  - rewrite flushIfFull_full by assumption.
    exists (flushed ++ output st). cbn [output file]. split; [ | split ].
    + rewrite app_nil_r. assumption.
    + rewrite Hf, terminated_app, join_terminated; [ reflexivity | ].
      destruct (output st); [ simpl in Hfull; lia | discriminate ].
    + right. rewrite length_app. lia.
  - rewrite flushIfFull_within by assumption. exists flushed. auto.
Qed.

(** The file after the last append. *)
Lemma streamed_final lines st :
  streamed threshold lines st ->
  file st +:+ JS.join JS.LF (output st) =
    content lines (bool_decide (output st = [] /\ lines <> [])).
Proof.
  intros (flushed & Hl & Hf & _). unfold content. rewrite Hf, Hl.
  destruct (output st) as [| l out].
  - rewrite app_nil_r. simpl. rewrite append_empty_r.
    destruct flushed as [| f flushed].
    + rewrite bool_decide_eq_false_2 by (intros [_ H]; apply H; reflexivity).
      reflexivity.
    + rewrite bool_decide_eq_true_2 by (split; [ reflexivity | discriminate ]).
      symmetry. apply join_terminated. discriminate.
  - rewrite bool_decide_eq_false_2 by (intros [H _]; discriminate).
    rewrite append_empty_r, join_app by discriminate. reflexivity.
Qed.

(** Nothing reaches the file before the last append when the lines fit the
    threshold. *)
Lemma streamed_small lines st :
  streamed threshold lines st -> (N.of_nat (length lines) <= threshold)%N ->
  file st = "" /\ output st = lines.
Proof.
  intros (flushed & Hl & Hf & [-> | Hbig]) Hsmall.
  - auto.
  - rewrite Hl, length_app in Hsmall. lia.
Qed.

End Streamed.

Section StreamedObjects.

Variable skipNormals : bool.
Variable threshold : N.
Variable scene : IScene.
Variable rootScale : Q.

Local Abbreviation node_step := (writeNode skipNormals threshold scene rootScale).
Local Abbreviation group_step := (writeGroup skipNormals threshold scene rootScale).
Local Abbreviation carries st new st' :=
  (forall lines, streamed threshold lines st -> streamed threshold (lines ++ new) st').

Lemma writeNode_streamed n st :
  isObject scene n ->
  exists st', node_step n st = Done st' /\
              carries st (memberLines skipNormals scene rootScale (indexOffset st) n) st' /\
              indexOffset st' = (indexOffset st + vertexCount scene n)%N.
Proof.
  intros Hobj. destruct (isObject_cases scene n Hobj) as [(node & g & Hn & Hg) | Hnm].
  - destruct (writeNode_mesh skipNormals threshold scene rootScale n node g st Hn Hg)
      as (Hstep & _ & _).
    eexists. split; [ exact Hstep | ]. split.
    + intros lines H. apply streamed_flush.
      eapply streamed_push; [ exact H | reflexivity | reflexivity ].
    + rewrite flushIfFull_indexOffset. reflexivity.
  - destruct (writeNode_notMesh skipNormals threshold scene rootScale n st Hnm)
      as (Hstep & Hl & Hc).
    exists st. split; [ assumption | ]. rewrite Hl, Hc. split; [ | lia ].
    intros lines H. rewrite app_nil_r. assumption.
Qed.

Lemma forEach_writeNode_streamed nodes st :
  Forall (isObject scene) nodes ->
  exists st', forEach node_step nodes st = Done st' /\
              carries st (membersLines skipNormals scene rootScale (indexOffset st) nodes) st' /\
              indexOffset st' = (indexOffset st + vertexTotal scene nodes)%N.
Proof.
  intros Hall. revert st. induction Hall as [| n nodes Hn _ IH]; intros st.
  - exists st. split; [ reflexivity | ]. split; [ | simpl; lia ].
    intros lines H. simpl. rewrite app_nil_r. assumption.
  - destruct (writeNode_streamed n st Hn) as (st1 & Hstep & Hcar & Hoff).
    destruct (IH st1) as (st2 & Hrest & Hcar' & Hoff').
    exists st2. cbn [forEach]. rewrite Hstep. cbn [andThen].
    split; [ assumption | ]. split.
    + intros lines H. simpl. rewrite app_assoc, <- Hoff. auto.
    + simpl. lia.
Qed.

Lemma forEach_writeGroup_streamed bucket st :
  Forall (isObject scene) (members bucket) ->
  exists st', forEach group_step bucket st = Done st' /\
              carries st (bucketLines skipNormals scene rootScale (indexOffset st) bucket) st' /\
              indexOffset st' = (indexOffset st + vertexTotal scene (members bucket))%N.
Proof.
  revert st. induction bucket as [| [id nodes] bucket IH]; intros st Hall.
  - exists st. split; [ reflexivity | ]. split; [ | simpl; lia ].
    intros lines H. simpl. rewrite app_nil_r. assumption.
  - unfold members in Hall. simpl in Hall. apply Forall_app in Hall as [Hnodes Hrest].
    set (st0 := mkWState (file st) (output st ++ ["o " +:+ id]) (indexOffset st) (logged st)).
    destruct (forEach_writeNode_streamed nodes st0 Hnodes) as (st1 & Hstep & Hcar & Hoff).
    destruct (IH st1 Hrest) as (st2 & Hstep' & Hcar' & Hoff').
    exists st2. split; [ | split ].
    + cbn [forEach]. unfold writeGroup at 1. fold st0. rewrite Hstep. exact Hstep'.
    + intros lines H. cbn [bucketLines].
      replace (lines ++ ("o " +:+ id) ::
               membersLines skipNormals scene rootScale (indexOffset st) nodes ++
               bucketLines skipNormals scene rootScale
                 (indexOffset st + vertexTotal scene nodes) bucket)
        with (((lines ++ ["o " +:+ id]) ++
               membersLines skipNormals scene rootScale (indexOffset st0) nodes) ++
              bucketLines skipNormals scene rootScale (indexOffset st1) bucket).
      * apply Hcar', Hcar.
        eapply streamed_push; [ exact H | reflexivity | reflexivity ].
      * rewrite Hoff. subst st0. cbn [indexOffset].
        rewrite <- !app_assoc. reflexivity.
    + unfold members. cbn [map concat snd]. rewrite vertexTotal_app, Hoff', Hoff.
      subst st0. cbn [indexOffset]. unfold members. lia.
Qed.

(** X1: for every threshold and every bucket of object nodes, the file is
    the unbounded write of the bucket, closed by one more separator exactly
    when the bucket is not empty and the last flush left the buffer empty. *)
Theorem writeObjectsWith_chunking (bucket : ObjectNodes) (log : list string) :
  Forall (isObject scene) (members bucket) ->
  exists st,
    writeObjectsWith skipNormals threshold scene rootScale bucket log = Done st /\
    file st = content (bucketLines skipNormals scene rootScale 1 bucket)
                      (bool_decide (output st = [] /\ bucket <> [])).
Proof.
  intros Hall.
  destruct (forEach_writeGroup_streamed bucket (mkWState "" [] 1 log) Hall)
    as (st & Hrun & Hcar & _).
  pose proof (Hcar [] (streamed_init threshold 1 log)) as Hst. simpl in Hst.
  eexists. split.
  - unfold writeObjectsWith. rewrite Hrun. reflexivity.
  - cbn [file output]. rewrite (streamed_final threshold _ _ Hst).
    f_equal. apply bool_decide_ext.
    destruct bucket as [| [id nodes] bucket]; simpl; intuition congruence.
Qed.

(** X2: a bucket of object nodes whose lines fit the threshold is written by
    the last append alone: the file is exactly the lines joined by the
    separator, without a separator at the end, and the offset ends at 1 plus
    the vertex counts of the bucket. *)
Theorem writeObjectsWith_single_append (bucket : ObjectNodes) (log : list string) :
  Forall (isObject scene) (members bucket) ->
  (N.of_nat (length (bucketLines skipNormals scene rootScale 1 bucket)) <= threshold)%N ->
  exists st,
    writeObjectsWith skipNormals threshold scene rootScale bucket log = Done st /\
    file st = JS.join JS.LF (bucketLines skipNormals scene rootScale 1 bucket) /\
    output st = bucketLines skipNormals scene rootScale 1 bucket /\
    indexOffset st = (1 + vertexTotal scene (members bucket))%N.
Proof.
  intros Hall Hsmall.
  destruct (forEach_writeGroup_streamed bucket (mkWState "" [] 1 log) Hall)
    as (st & Hrun & Hcar & Hoff).
  pose proof (Hcar [] (streamed_init threshold 1 log)) as Hst. simpl in Hst.
  destruct (streamed_small threshold _ _ Hst Hsmall) as [Hfile Hout].
  eexists. split.
  - unfold writeObjectsWith. rewrite Hrun. reflexivity.
  - cbn [file output indexOffset]. rewrite Hfile, Hout. auto.
Qed.

End StreamedObjects.

Lemma writeObjectsWith_chunking_witness :
  exists st,
    writeObjectsWith false 1 Samples.scene7 1 [("dbid-7", [0%nat])] [] = Done st /\
    file st = "o dbid-7" +:+ JS.LF +:+ "v 0 0 0" +:+ JS.LF +:+ "v 1 0 0" +:+ JS.LF +:+
              "v 0 1 0" +:+ JS.LF +:+ "f 1 2 3" +:+ JS.LF.
Proof.
  destruct (writeObjectsWith_chunking false 1 Samples.scene7 1 [("dbid-7", [0%nat])] [])
    as (st & Hrun & Hfile).
  - repeat constructor. exists (mkObjectNode 7 None 0). reflexivity.
  - exists st. split; [ exact Hrun | ]. rewrite Hfile.
    vm_compute in Hrun. injection Hrun as <-. reflexivity.
Defined.

Lemma writeObjectsWith_single_append_witness :
  exists st,
    writeObjectsWith false 50000 Samples.scene7 1 [("dbid-7", [0%nat])] [] = Done st /\
    file st = "o dbid-7" +:+ JS.LF +:+ "v 0 0 0" +:+ JS.LF +:+ "v 1 0 0" +:+ JS.LF +:+
              "v 0 1 0" +:+ JS.LF +:+ "f 1 2 3".
Proof.
  destruct (writeObjectsWith_single_append false 50000 Samples.scene7 1
              [("dbid-7", [0%nat])] []) as (st & Hrun & Hfile & _).
  - repeat constructor. exists (mkObjectNode 7 None 0). reflexivity.
  - vm_compute. discriminate.
  - exists st. split; [ exact Hrun | ]. rewrite Hfile. reflexivity.
Defined.

(** X3: [write] never throws, whatever the scene and the property database:
    every node it buckets is an object node. Its log is one "Skipping node
    type" line per node that is not an object, in scene order, followed by
    "Finished writing OBJ". *)
Theorem write_never_throws (skipNormals : bool) (imf : IScene)
    (propdb : option PropDbReader) :
  exists w,
    write skipNormals imf propdb = inr w /\
    log w = skipped imf (sceneOrder imf) ++ ["Finished writing OBJ"].
Proof.
  destruct (write_completes skipNormals imf propdb) as (regular & opening & _ & _ & Hw).
  eexists. split; [ exact Hw | ].
  cbn [log]. rewrite getObjectNodes_grouped. reflexivity.
Qed.

Section Exceptions.

Variable skipNormals : bool.
Variable threshold : N.
Variable scene : IScene.
Variable rootScale : Q.

Local Abbreviation node_step := (writeNode skipNormals threshold scene rootScale).
Local Abbreviation group_step := (writeGroup skipNormals threshold scene rootScale).
Local Abbreviation excluded kind := ("Node kind " +:+ kind +:+ " should have been excluded").
Local Abbreviation whole st := (exists flushed, file st = terminated flushed).

Lemma writeNode_whole n st st' :
  isObject scene n -> node_step n st = Done st' -> whole st -> whole st'.
Proof.
  intros Hobj Hstep (flushed & Hf).
  destruct (writeNode_advanced skipNormals threshold scene rootScale n st Hobj)
    as (st1 & Hstep1 & Hholds & _).
  assert (st1 = st') by congruence. subst st1.
  destruct (Hholds (flushed ++ output st)) as (flushed' & _ & Hf').
  - exists flushed. auto.
  - exists flushed'. assumption.
Qed.

Lemma forEach_writeNode_outcome nodes st :
  whole st ->
  match firstOther scene nodes with
  | Some kind => exists st', forEach node_step nodes st = Thrown (excluded kind) st' /\ whole st'
  | None => exists st', forEach node_step nodes st = Done st' /\ whole st'
  end.
Proof.
  revert st. induction nodes as [| n nodes IH]; intros st Hw; cbn [firstOther forEach].
  - exists st. auto.
  - destruct (getNode scene n) as [node | kind] eqn:Hn.
    + destruct (writeNode_advanced skipNormals threshold scene rootScale n st
                  (ex_intro _ node Hn)) as (st1 & Hstep & _).
      rewrite Hstep. cbn [andThen].
      apply IH. eapply writeNode_whole; [ exists node; exact Hn | exact Hstep | exact Hw ].
    + exists st. unfold writeNode. rewrite Hn. auto.
Qed.

Lemma firstOther_app l1 l2 :
  firstOther scene (l1 ++ l2) =
    match firstOther scene l1 with
    | Some kind => Some kind
    | None => firstOther scene l2
    end.
Proof.
  induction l1 as [| n l1 IH]; [ reflexivity | ].
  simpl. destruct (getNode scene n); [ exact IH | reflexivity ].
Qed.

Lemma forEach_writeGroup_outcome bucket st :
  whole st ->
  match firstOther scene (members bucket) with
  | Some kind => exists st', forEach group_step bucket st = Thrown (excluded kind) st' /\ whole st'
  | None => exists st', forEach group_step bucket st = Done st' /\ whole st'
  end.
Proof.
  revert st. induction bucket as [| [id nodes] bucket IH]; intros st Hw.
  - exists st. auto.
  - unfold members in *. cbn [map concat snd]. rewrite firstOther_app.
    cbn [forEach].
    set (st0 := mkWState (file st) (output st ++ ["o " +:+ id]) (indexOffset st) (logged st)).
    change (group_step (id, nodes) st) with (forEach node_step nodes st0).
    pose proof (forEach_writeNode_outcome nodes st0 Hw) as Hnodes.
    destruct (firstOther scene nodes) as [kind |].
    + destruct Hnodes as (st' & -> & Hw'). exists st'. auto.
    + destruct Hnodes as (st1 & -> & Hw1). cbn [andThen]. apply (IH st1 Hw1).
Qed.

Lemma firstOther_None nodes :
  firstOther scene nodes = None <-> Forall (isObject scene) nodes.
Proof.
  induction nodes as [| n nodes IH]; simpl.
  - split; [ constructor | reflexivity ].
  - destruct (getNode scene n) as [node | kind] eqn:Hn.
    + rewrite IH. split.
      * intros H. constructor; [ exists node; assumption | assumption ].
      * intros H. apply Forall_inv_tail in H. assumption.
    + split; [ discriminate | ].
      intros H. apply Forall_inv in H as (node & Hnode). congruence.
Qed.

Lemma objectsPrefix_objects nodes :
  Forall (isObject scene) (objectsPrefix scene nodes).
Proof.
  induction nodes as [| n nodes IH]; simpl; [ constructor | ].
  destruct (getNode scene n) as [node | kind] eqn:Hn; constructor.
  - exists node. assumption.
  - assumption.
Qed.

Lemma untilOther_objects bucket :
  Forall (isObject scene) (members (untilOther scene bucket)).
Proof.
  induction bucket as [| [id nodes] bucket IH]; simpl; [ constructor | ].
  destruct (firstOther scene nodes) as [kind |] eqn:Hk; unfold members; simpl.
  - rewrite app_nil_r. apply objectsPrefix_objects.
  - apply Forall_app. split; [ apply firstOther_None; assumption | exact IH ].
Qed.

(** The run stops in the state that the members before the offending one
    leave. *)
Lemma forEach_writeNode_truncated nodes st kind :
  firstOther scene nodes = Some kind ->
  exists st',
    forEach node_step nodes st = Thrown (excluded kind) st' /\
    forEach node_step (objectsPrefix scene nodes) st = Done st'.
Proof.
  revert st. induction nodes as [| n nodes IH]; intros st Hk; [ discriminate | ].
  cbn [firstOther objectsPrefix forEach] in *.
  destruct (getNode scene n) as [node | kind'] eqn:Hn.
  - destruct (writeNode_advanced skipNormals threshold scene rootScale n st
                (ex_intro _ node Hn)) as (st1 & Hstep & _).
    cbn [forEach]. rewrite Hstep. cbn [andThen]. apply IH. assumption.
  - injection Hk as ->. exists st. unfold writeNode. rewrite Hn. auto.
Qed.

Lemma forEach_writeGroup_truncated bucket st kind :
  firstOther scene (members bucket) = Some kind ->
  exists st',
    forEach group_step bucket st = Thrown (excluded kind) st' /\
    forEach group_step (untilOther scene bucket) st = Done st'.
Proof.
  revert st. induction bucket as [| [id nodes] bucket IH]; intros st Hk;
    [ discriminate | ].
  unfold members in *. cbn [map concat snd] in Hk. rewrite firstOther_app in Hk.
  cbn [untilOther forEach].
  set (st0 := mkWState (file st) (output st ++ ["o " +:+ id]) (indexOffset st) (logged st)).
  change (group_step (id, nodes) st) with (forEach node_step nodes st0).
  destruct (firstOther scene nodes) as [kind' |] eqn:Hnodes.
  - injection Hk as ->.
    destruct (forEach_writeNode_truncated nodes st0 kind Hnodes) as (st' & Hthrown & Hdone).
    exists st'. rewrite Hthrown. split; [ reflexivity | ].
    cbn [forEach]. change (group_step (id, objectsPrefix scene nodes) st)
      with (forEach node_step (objectsPrefix scene nodes) st0).
    rewrite Hdone. reflexivity.
  - apply firstOther_None in Hnodes.
    destruct (forEach_writeNode_advanced skipNormals threshold scene rootScale nodes st0
                Hnodes) as (st1 & Hstep & _).
    cbn [forEach]. change (group_step (id, nodes) st) with (forEach node_step nodes st0).
    rewrite Hstep. cbn [andThen]. apply IH. assumption.
Qed.

(** X4: [writeObjects] throws exactly when some member of the bucket is not
    an object node; the message names the kind of the first such member in
    writing order. The run stops in the state reached on the bucket cut
    before that member, without the last append: of the lines written so
    far, the file holds those of the earlier flushes and no other, the rest
    is left in the buffer; when the lines fit the threshold the file is
    empty. *)
Theorem writeObjectsWith_outcome (bucket : ObjectNodes) (log : list string) :
  (firstOther scene (members bucket) = None <->
   Forall (isObject scene) (members bucket)) /\
  match firstOther scene (members bucket) with
  | Some kind =>
      let before := untilOther scene bucket in
      let lines := bucketLines skipNormals scene rootScale 1 before in
      exists st flushed,
        writeObjectsWith skipNormals threshold scene rootScale bucket log =
          Thrown ("Node kind " +:+ kind +:+ " should have been excluded") st /\
        forEach (writeGroup skipNormals threshold scene rootScale) before
                (mkWState "" [] 1 log) = Done st /\
        lines = flushed ++ output st /\
        file st = terminated flushed /\
        (flushed = [] \/ (threshold < N.of_nat (length flushed))%N) /\
        ((N.of_nat (length lines) <= threshold)%N -> file st = "" /\ output st = lines)
  | None =>
      exists st, writeObjectsWith skipNormals threshold scene rootScale bucket log = Done st
  end.
Proof.
  split; [ apply firstOther_None | ].
  unfold writeObjectsWith.
  destruct (firstOther scene (members bucket)) as [kind |] eqn:Hk.
  - cbv zeta.
    set (before := untilOther scene bucket).
    set (lines := bucketLines skipNormals scene rootScale 1 before).
    destruct (forEach_writeGroup_truncated bucket (mkWState "" [] 1 log) kind Hk)
      as (st & Hthrown & Hdone).
    destruct (forEach_writeGroup_streamed skipNormals threshold scene rootScale before
                (mkWState "" [] 1 log) (untilOther_objects bucket))
      as (st' & Hdone' & Hcar & _).
    assert (st' = st) by (subst before; congruence). subst st'.
    pose proof (Hcar [] (streamed_init threshold 1 log)) as Hst. simpl in Hst.
    fold lines in Hst.
    pose proof (streamed_small threshold _ _ Hst) as Hsmall.
    destruct Hst as (flushed & Hl & Hf & Hbig).
    exists st, flushed. rewrite Hthrown. auto 10.
  - pose proof (forEach_writeGroup_outcome bucket (mkWState "" [] 1 log)
                  (ex_intro _ [] eq_refl)) as H.
    rewrite Hk in H. destruct H as (st & -> & _). eexists. reflexivity.
Qed.

End Exceptions.

(** A group node among the members: the run stops there. *)
Lemma writeObjectsWith_outcome_example :
  writeObjects false [("a", [0; 1; 2]%nat)] Samples.sceneGroups 1 [] =
    Thrown "Node kind 0 should have been excluded"
           (mkWState "" ["o a"; "v 0 0 0"; "v 1 0 0"; "v 0 1 0"; "f 1 2 3"] 4 []).
Proof. reflexivity. Qed.

Section Partition.

Lemma members_pushNode k i m : Permutation (members (pushNode k i m)) (members m ++ [i]).
Proof.
  induction m as [| [k' ns] m IH]; unfold members in *; simpl.
  - reflexivity.
  - destruct (String.eqb k' k); simpl.
    + rewrite <- !app_assoc. apply Permutation_app_head.
      apply (Permutation_app_comm [i]).
    + rewrite IH, app_assoc. reflexivity.
Qed.

Lemma members_grouped es : Permutation (members (grouped es)) (map snd es).
Proof.
  induction es as [| [k i] es IH] using rev_ind; [ reflexivity | ].
  rewrite grouped_snoc, members_pushNode, IH, map_app. reflexivity.
Qed.

Lemma entriesOf_indices imf propdb l :
  Permutation (map snd (entriesOf imf propdb false l) ++
               map snd (entriesOf imf propdb true l))
              (List.filter (isObjectb imf) l).
Proof.
  unfold entriesOf, isObjectb. induction l as [| i l IH]; [ reflexivity | ].
  cbn [flat_map List.filter].
  destruct (getNode imf i) as [node | kind]; [ | exact IH ].
  destruct (isOpening propdb node); cbn [Bool.eqb app map snd].
  - rewrite <- Permutation_middle. constructor. exact IH.
  - constructor. exact IH.
Qed.

(** X5: the two buckets of [getObjectNodes] together hold every object node
    of the scene exactly once, and nothing else. *)
Theorem getObjectNodes_partition (imf : IScene) (propdb : option PropDbReader)
    (log : list string) :
  let info := getObjectNodes imf propdb log in
  let all := members (buildingNodes info) ++ members (openingNodes info) in
  Permutation all (objectIndices imf) /\ List.NoDup all.
Proof.
  intros info all. subst all info. rewrite getObjectNodes_grouped. cbn [buildingNodes openingNodes].
  assert (H : Permutation
                (members (grouped (entriesOf imf propdb false (sceneOrder imf))) ++
                 members (grouped (entriesOf imf propdb true (sceneOrder imf))))
                (objectIndices imf)).
  { rewrite !members_grouped. apply entriesOf_indices. }
  split; [ exact H | ].
  apply (Permutation_NoDup (Permutation_sym H)).
  apply List.NoDup_filter, seq_NoDup.
Qed.

End Partition.

Section EmptyFiles.

Lemma writeObjects_empty skipNormals scene rootScale log :
  writeObjects skipNormals [] scene rootScale log = Done (mkWState "" [] 1 log).
Proof. reflexivity. Qed.

(** X6: without a property database [write] leaves [openings.obj] empty,
    whatever the scene. *)
Theorem write_without_database (skipNormals : bool) (imf : IScene) :
  exists w, write skipNormals imf None = inr w /\ openings_obj w = "".
Proof.
  destruct (write_completes skipNormals imf None) as (regular & opening & _ & Ho & Hw).
  exists (mkWritten (file regular) (file opening)
                    (messages (getObjectNodes imf None []) ++ ["Finished writing OBJ"])).
  split; [ exact Hw | ].
  rewrite getObjectNodes_grouped in Ho. cbn [openingNodes] in Ho.
  rewrite entriesOf_no_database in Ho. cbn in Ho. injection Ho as <-. reflexivity.
Qed.

Lemma entriesOf_no_objects imf propdb cls l :
  Forall (fun i => ~ isObject imf i) l -> entriesOf imf propdb cls l = [].
Proof.
  unfold entriesOf. induction 1 as [| i l Hi _ IH]; [ reflexivity | ].
  cbn [flat_map]. rewrite IH.
  destruct (getNode imf i) as [node | kind] eqn:Hn; [ | reflexivity ].
  exfalso. apply Hi. exists node. assumption.
Qed.

Lemma skipped_no_objects imf l :
  Forall (fun i => ~ isObject imf i) l -> length (skipped imf l) = length l.
Proof.
  unfold skipped. induction 1 as [| i l Hi _ IH]; [ reflexivity | ].
  cbn [flat_map]. rewrite length_app, IH.
  destruct (getNode imf i) as [node | kind] eqn:Hn; [ | reflexivity ].
  exfalso. apply Hi. exists node. assumption.
Qed.

(** X7: on a scene without object nodes (in particular on a scene without
    nodes) [write] leaves both files empty; its log has one line per node and
    the closing line. *)
Theorem write_no_objects (skipNormals : bool) (imf : IScene)
    (propdb : option PropDbReader) :
  Forall (fun i => ~ isObject imf i) (sceneOrder imf) ->
  write skipNormals imf propdb =
    inr (mkWritten "" "" (skipped imf (sceneOrder imf) ++ ["Finished writing OBJ"])) /\
  length (skipped imf (sceneOrder imf)) = getNodeCount imf.
Proof.
  intros Hnone. split.
  - unfold write. rewrite getObjectNodes_grouped.
    cbn [buildingNodes openingNodes messages].
    rewrite !entriesOf_no_objects by assumption. reflexivity.
  - rewrite skipped_no_objects by assumption. apply length_seq.
Qed.

End EmptyFiles.

Lemma write_no_objects_witness :
  write false (mkScene 2 (fun _ => OtherNode "0") (fun _ => OtherGeometry "3") ∅) None =
    inr (mkWritten "" "" ["Skipping node type 0"; "Skipping node type 0";
                          "Finished writing OBJ"]).
Proof.
  apply (write_no_objects false
           (mkScene 2 (fun _ => OtherNode "0") (fun _ => OtherGeometry "3") ∅) None).
  repeat constructor; intros (node & Hnode); discriminate Hnode.
Defined.

Section Matrices.

Local Open Scope Q_scope.

(** X8: a matrix transform of sixteen elements is resolved to the transpose
    of the matrix it stores: the element at row [r], column [c] of the
    result is the element at row [c], column [r] of the input (both stored
    column by column). *)
Theorem nodeTransform_matrix_transposes (id : Z) (g : GeometryID) (m : list Q)
    (r c : nat) :
  length m = 16%nat -> (r < 4)%nat -> (c < 4)%nat ->
  nth (4 * c + r) (THREE.elements (nodeTransform (mkObjectNode id (Some (MatrixTransform m)) g))) 0
  = nth (4 * r + c) m 0.
Proof.
  intros Hm Hr Hc.
  do 17 (destruct m as [| ? m]; try discriminate Hm).
  destruct r as [| [| [| [| r]]]]; try lia;
    destruct c as [| [| [| [| c]]]]; try lia; reflexivity.
Qed.

Lemma nodeTransform_matrix_transposes_witness :
  nth 3 (THREE.elements (nodeTransform Samples.node567)) 0 = 5.
Proof.
  apply (nodeTransform_matrix_transposes 7 0%nat Samples.translate567 3 0);
    [ reflexivity | lia | lia ].
Defined.

(** X9: the translation of a decomposed transform has no effect on the
    rotation used for the normals, hence none on the normal lines. *)
Theorem normals_ignore_translation (id : Z) (g : GeometryID) (t : option IVec3)
    (r : option IQuaternion) (s : option IVec3) (normals : list Q) :
  let moved := mkObjectNode id (Some (DecomposedTransform t r s)) g in
  let unmoved := mkObjectNode id (Some (DecomposedTransform None r s)) g in
  THREE.extractRotation (nodeTransform moved) =
    THREE.extractRotation (nodeTransform unmoved) /\
  map (normalLine (THREE.extractRotation (nodeTransform moved))) (vectors normals) =
    map (normalLine (THREE.extractRotation (nodeTransform unmoved))) (vectors normals).
Proof.
  intros moved unmoved.
  assert (H : THREE.extractRotation (nodeTransform moved) =
              THREE.extractRotation (nodeTransform unmoved)).
  { subst moved unmoved. destruct t as [[] |]; reflexivity. }
  split; [ exact H | rewrite H; reflexivity ].
Qed.

End Matrices.

Section Rounding.

Local Open Scope Q_scope.

Lemma Math_round_bounds y :
  y - (1 # 2) < JS.Math_round y /\ JS.Math_round y <= y + (1 # 2).
Proof.
  unfold JS.Math_round. split.
  - pose proof (Qlt_floor (y + (1 # 2))) as H.
    rewrite inject_Z_plus in H. change (inject_Z 1) with 1 in H. lra.
  - apply Qfloor_le.
Qed.

Lemma Math_round_integer k : JS.Math_round (inject_Z k) = inject_Z k.
Proof.
  unfold JS.Math_round. f_equal. unfold Qfloor, Qplus, inject_Z. simpl.
  Z.div_mod_to_equations. lia.
Qed.

Lemma Math_round_comp x y : x == y -> JS.Math_round x = JS.Math_round y.
Proof.
  intros H. unfold JS.Math_round. f_equal. apply Qfloor_comp. rewrite H. reflexivity.
Qed.

(** X10: [myFixed4] yields a multiple of 1/10000 at distance at most 1/20000
    from its argument, and leaves such a multiple unchanged; [myFixed2] does
    the same with 1/100 and 1/200. *)
Theorem myFixed_rounds (x : Q) :
  (Qabs (myFixed4 x - x) <= 1 # 20000 /\
   (exists k : Z, myFixed4 x == k # 10000) /\
   myFixed4 (myFixed4 x) == myFixed4 x) /\
  (Qabs (myFixed2 x - x) <= 1 # 200 /\
   (exists k : Z, myFixed2 x == k # 100) /\
   myFixed2 (myFixed2 x) == myFixed2 x).
Proof.
  unfold myFixed4, myFixed2. split.
  - pose proof (Math_round_bounds (x * 10000)) as [Hlo Hhi].
    split; [ | split ].
    + apply Qabs_Qle_condition. unfold Qdiv. change (/ 10000) with (1 # 10000).
      split; lra.
    + exists (Qfloor (x * 10000 + (1 # 2))). unfold JS.Math_round.
      unfold Qdiv, Qmult, Qinv, Qeq, inject_Z. simpl. lia.
    + rewrite (Math_round_comp (JS.Math_round (x * 10000) / 10000 * 10000)
                               (inject_Z (Qfloor (x * 10000 + (1 # 2))))).
      * rewrite Math_round_integer. reflexivity.
      * unfold JS.Math_round. field.
  - pose proof (Math_round_bounds (x * 100)) as [Hlo Hhi].
    split; [ | split ].
    + apply Qabs_Qle_condition. unfold Qdiv. change (/ 100) with (1 # 100).
      split; lra.
    + exists (Qfloor (x * 100 + (1 # 2))). unfold JS.Math_round.
      unfold Qdiv, Qmult, Qinv, Qeq, inject_Z. simpl. lia.
    + rewrite (Math_round_comp (JS.Math_round (x * 100) / 100 * 100)
                               (inject_Z (Qfloor (x * 100 + (1 # 2))))).
      * rewrite Math_round_integer. reflexivity.
      * unfold JS.Math_round. field.
Qed.

End Rounding.

(** * Properties of the earlier writers *)

Section StreamedContent.

Variable threshold : N.

(** The file after the last append, for any streaming writer. *)
Lemma streamed_content lines st :
  streamed threshold lines st ->
  exists closed,
    file st +:+ JS.join JS.LF (output st) = content lines closed /\
    (closed = true -> (threshold < N.of_nat (length lines))%N).
Proof.
  intros H. exists (bool_decide (output st = [] /\ lines <> [])).
  split; [ apply (streamed_final threshold), H | ].
  intros Hc. apply bool_decide_eq_true_1 in Hc as [Hout Hne].
  destruct H as (flushed & Hl & _ & [-> | Hbig]).
  - rewrite Hout in Hl. contradiction.
  - rewrite Hl, Hout, app_nil_r. assumption.
Qed.

End StreamedContent.

Section SingleFile.

Variable skipNormals : bool.
Variable threshold : N.
Variable imf : IScene.
Variable rootScale : Q.

Local Abbreviation name1 := (fun node : IObjectNode => JS.Z_toString (dbid node)).
Local Abbreviation all := (fun _ : IObjectNode => true).

Lemma Writer1_loop l st :
  let st' := Writer1.loop skipNormals threshold imf rootScale l st in
  logged st' = logged st ++ skipLog imf l /\
  indexOffset st' = (indexOffset st + perNodeVertices imf all l)%N /\
  (forall lines,
     streamed threshold lines st ->
     streamed threshold
       (lines ++ perNodeLines skipNormals imf rootScale name1 all (indexOffset st) l) st').
Proof.
  revert st. induction l as [| i l IH]; intros st; cbn zeta.
  - simpl. rewrite !app_nil_r, N.add_0_r. split; [ | split ]; auto.
    intros lines H. rewrite app_nil_r. assumption.
  - unfold Writer1.loop in *. cbn [fold_left].
    destruct (IH (Writer1.write_body skipNormals threshold imf rootScale st i))
      as (Hlog & Hoff & Hlines).
    rewrite Hlog, Hoff. clear Hlog Hoff.
    unfold Writer1.write_body in *. unfold skipLog. cbn [flat_map perNodeLines perNodeVertices].
    unfold written.
    destruct (getNode imf i) as [node | kind].
    + destruct (getGeometry imf (geometry node)) as [g | kind].
      * rewrite flushIfFull_logged, flushIfFull_indexOffset. cbn [logged indexOffset].
        split; [ reflexivity | split; [ lia | ] ].
        intros lines H.
        replace (lines ++ ("o " +:+ JS.Z_toString (dbid node)) ::
                 meshLines skipNormals rootScale node g (indexOffset st) ++
                 perNodeLines skipNormals imf rootScale name1 all
                   (indexOffset st + count3 (getVertices g)) l)
          with ((lines ++ ["o " +:+ JS.Z_toString (dbid node)] ++
                 meshLines skipNormals rootScale node g (indexOffset st)) ++
                perNodeLines skipNormals imf rootScale name1 all
                   (indexOffset st + count3 (getVertices g)) l)
          by (rewrite <- !app_assoc; reflexivity).
        specialize (Hlines (lines ++ ["o " +:+ JS.Z_toString (dbid node)] ++
                            meshLines skipNormals rootScale node g (indexOffset st))).
        rewrite flushIfFull_indexOffset in Hlines. cbn [indexOffset] in Hlines.
        apply Hlines. apply streamed_flush.
        eapply streamed_push; [ exact H | reflexivity | reflexivity ].
      * cbn [logged indexOffset] in *. rewrite <- app_assoc.
        split; [ reflexivity | split; [ reflexivity | ] ].
        intros lines H. apply Hlines.
        destruct H as (flushed & ? & ? & ?). exists flushed. auto.
    + cbn [logged indexOffset] in *. rewrite <- app_assoc.
      split; [ reflexivity | split; [ reflexivity | ] ].
      intros lines H. apply Hlines.
      destruct H as (flushed & ? & ? & ?). exists flushed. auto.
Qed.

End SingleFile.

(** X11: the single-file writer logs every node it skips: one "Skipping
    node type" line per node that is not an object and one "Skipping
    geometry type" line per object node without a mesh, in scene order,
    followed by "Finished writing OBJ". *)
Theorem Writer1_log (skipNormals : bool) (threshold : N) (imf : IScene) :
  Writer1.log (Writer1.writeWith skipNormals threshold imf) =
    skipLog imf (sceneOrder imf) ++ ["Finished writing OBJ"].
Proof.
  unfold Writer1.writeWith. cbn [Writer1.log].
  destruct (Writer1_loop skipNormals threshold imf (getRootScale imf) (sceneOrder imf)
              (mkWState "" [] 1 [])) as (Hlog & _).
  unfold sceneOrder in Hlog. rewrite Hlog. reflexivity.
Qed.

(** X12: the file of the single-file writer holds, for each object node with
    a mesh in scene order, the line "o <dbid>" and the lines of the mesh at
    an offset that starts at 1 and advances by the vertex count of each mesh
    written; the lines are joined by the separator, and one more separator
    closes the file only if more lines than the threshold were written. *)
Theorem Writer1_content (skipNormals : bool) (threshold : N) (imf : IScene) :
  let lines :=
    perNodeLines skipNormals imf (getRootScale imf)
                 (fun node => JS.Z_toString (dbid node)) (fun _ => true) 1
                 (sceneOrder imf) in
  exists closed,
    Writer1.output_obj (Writer1.writeWith skipNormals threshold imf) =
      content lines closed /\
    (closed = true -> (threshold < N.of_nat (length lines))%N).
Proof.
  intros lines. unfold Writer1.writeWith. cbn [Writer1.output_obj].
  destruct (Writer1_loop skipNormals threshold imf (getRootScale imf) (sceneOrder imf)
              (mkWState "" [] 1 [])) as (_ & _ & Hlines).
  apply (streamed_content threshold).
  apply (Hlines [] (streamed_init threshold 1 [])).
Qed.

Lemma Writer1_content_witness :
  Writer1.output_obj (Writer1.write false Samples.sceneGroups) =
    JS.join JS.LF ["o 1"; "v 0 0 0"; "v 1 0 0"; "v 0 1 0"; "f 1 2 3";
                   "o 2"; "v 0 0 0"; "v 1 0 0"; "v 0 1 0"; "f 4 5 6";
                   "o 3"; "v 0 0 0"; "v 1 0 0"; "v 0 1 0"; "f 7 8 9"].
Proof.
  destruct (Writer1_content false 50000 Samples.sceneGroups) as (closed & Hfile & Hclosed).
  unfold Writer1.write. rewrite Hfile.
  destruct closed; [ | reflexivity ].
  specialize (Hclosed eq_refl). vm_compute in Hclosed. discriminate Hclosed.
Defined.

Section TwoFiles.

Variable skipNormals : bool.
Variable threshold : N.
Variable imf : IScene.
Variable propdb : option PropDbReader.
Variable rootScale : Q.

Local Abbreviation body := (Writer2.write_body skipNormals threshold imf propdb rootScale).
Local Abbreviation regular := (fun node : IObjectNode => negb (isOpening propdb node)).
Local Abbreviation opening := (isOpening propdb).
Local Abbreviation lines_of sel offset l :=
  (perNodeLines skipNormals imf rootScale (groupKey propdb) sel offset l).

Lemma regularView_flushRegular st :
  regularView (Writer2.flushRegular threshold st) = flushIfFull threshold (regularView st).
Proof.
  unfold Writer2.flushRegular, flushIfFull, regularView. cbn [output].
  destruct (_ <? _)%N; reflexivity.
Qed.

Lemma regularView_flushOpening st :
  regularView (Writer2.flushOpening threshold st) = regularView st.
Proof. unfold Writer2.flushOpening, regularView. destruct (_ <? _)%N; reflexivity. Qed.

Lemma openingView_flushRegular st :
  openingView (Writer2.flushRegular threshold st) = openingView st.
Proof. unfold Writer2.flushRegular, openingView. destruct (_ <? _)%N; reflexivity. Qed.

Lemma openingView_flushOpening st :
  openingView (Writer2.flushOpening threshold st) = flushIfFull threshold (openingView st).
Proof.
  unfold Writer2.flushOpening, flushIfFull, openingView. cbn [output].
  destruct (_ <? _)%N; reflexivity.
Qed.

Lemma streamed_same lines st st' :
  streamed threshold lines st -> file st' = file st -> output st' = output st ->
  streamed threshold lines st'.
Proof.
  intros (flushed & ? & ? & ?) Hf Ho. exists flushed. rewrite Hf, Ho. auto.
Qed.

(** One round of the loop, seen from each file. *)
Lemma Writer2_body st i :
  Writer2.logLines (body st i) = Writer2.logLines st ++ skipLog imf [i] /\
  (forall lines,
     streamed threshold lines (regularView st) ->
     streamed threshold (lines ++ lines_of regular (Writer2.regularIndexOffset st) [i])
              (regularView (body st i))) /\
  (forall lines,
     streamed threshold lines (openingView st) ->
     streamed threshold (lines ++ lines_of opening (Writer2.openingIndexOffset st) [i])
              (openingView (body st i))) /\
  Writer2.regularIndexOffset (body st i) =
    (Writer2.regularIndexOffset st + perNodeVertices imf regular [i])%N /\
  Writer2.openingIndexOffset (body st i) =
    (Writer2.openingIndexOffset st + perNodeVertices imf opening [i])%N.
Proof.
  unfold Writer2.write_body, skipLog. cbn [flat_map perNodeLines perNodeVertices].
  unfold written.
  destruct (getNode imf i) as [node | kind].
  - destruct (getGeometry imf (geometry node)) as [g | kind].
    + destruct (isOpening propdb node); cbn [negb].
      * repeat split.
        -- unfold Writer2.flushOpening, Writer2.flushRegular.
           repeat (destruct (_ <? _)%N; cbn [Writer2.logLines Writer2.regularOutput
                                              Writer2.openingOutput]);
             rewrite app_nil_r; reflexivity.
        -- intros lines H. rewrite app_nil_r, regularView_flushOpening,
             regularView_flushRegular. apply streamed_flush.
           eapply streamed_same; [ exact H | reflexivity | reflexivity ].
        -- intros lines H. rewrite openingView_flushOpening, openingView_flushRegular.
           apply streamed_flush. rewrite app_nil_r.
           eapply streamed_push; [ exact H | reflexivity | reflexivity ].
        -- unfold Writer2.flushOpening, Writer2.flushRegular.
           repeat (destruct (_ <? _)%N; cbn [Writer2.regularIndexOffset
                     Writer2.regularOutput Writer2.openingOutput]); lia.
        -- unfold Writer2.flushOpening, Writer2.flushRegular.
           repeat (destruct (_ <? _)%N; cbn [Writer2.openingIndexOffset
                     Writer2.regularOutput Writer2.openingOutput]); lia.
      * repeat split.
        -- unfold Writer2.flushOpening, Writer2.flushRegular.
           repeat (destruct (_ <? _)%N; cbn [Writer2.logLines Writer2.regularOutput
                                              Writer2.openingOutput]);
             rewrite app_nil_r; reflexivity.
        -- intros lines H. rewrite regularView_flushOpening, regularView_flushRegular.
           apply streamed_flush. rewrite app_nil_r.
           eapply streamed_push; [ exact H | reflexivity | reflexivity ].
        -- intros lines H. rewrite app_nil_r, openingView_flushOpening,
             openingView_flushRegular. apply streamed_flush.
           eapply streamed_same; [ exact H | reflexivity | reflexivity ].
        -- unfold Writer2.flushOpening, Writer2.flushRegular.
           repeat (destruct (_ <? _)%N; cbn [Writer2.regularIndexOffset
                     Writer2.regularOutput Writer2.openingOutput]); lia.
        -- unfold Writer2.flushOpening, Writer2.flushRegular.
           repeat (destruct (_ <? _)%N; cbn [Writer2.openingIndexOffset
                     Writer2.regularOutput Writer2.openingOutput]); lia.
    + cbn. rewrite !N.add_0_r. repeat split; intros lines H; rewrite app_nil_r;
        (eapply streamed_same; [ exact H | reflexivity | reflexivity ]).
  - cbn. rewrite !N.add_0_r. repeat split; intros lines H; rewrite app_nil_r;
      (eapply streamed_same; [ exact H | reflexivity | reflexivity ]).
Qed.

Lemma perNodeLines_cons sel offset i l :
  lines_of sel offset (i :: l) =
    lines_of sel offset [i] ++ lines_of sel (offset + perNodeVertices imf sel [i]) l.
Proof.
  cbn [perNodeLines perNodeVertices].
  destruct (written imf sel i) as [[node g] |].
  - rewrite N.add_0_r, app_nil_r. reflexivity.
  - rewrite N.add_0_r. reflexivity.
Qed.

Lemma Writer2_loop l st :
  let st' := Writer2.loop skipNormals threshold imf propdb rootScale l st in
  Writer2.logLines st' = Writer2.logLines st ++ skipLog imf l /\
  (forall lines,
     streamed threshold lines (regularView st) ->
     streamed threshold (lines ++ lines_of regular (Writer2.regularIndexOffset st) l)
              (regularView st')) /\
  (forall lines,
     streamed threshold lines (openingView st) ->
     streamed threshold (lines ++ lines_of opening (Writer2.openingIndexOffset st) l)
              (openingView st')).
Proof.
  revert st. induction l as [| i l IH]; intros st; cbn zeta.
  - cbn. rewrite app_nil_r. repeat split; intros lines H; rewrite app_nil_r; exact H.
  - unfold Writer2.loop in *. cbn [fold_left].
    destruct (IH (body st i)) as (Hlog & Hreg & Hop).
    destruct (Writer2_body st i) as (Hlog1 & Hreg1 & Hop1 & Hoff1 & Hoff2).
    split; [ | split ].
    + rewrite Hlog, Hlog1, <- app_assoc. unfold skipLog. cbn [flat_map].
      rewrite app_nil_r. reflexivity.
    + intros lines H. rewrite perNodeLines_cons, app_assoc, <- Hoff1. auto.
    + intros lines H. rewrite perNodeLines_cons, app_assoc, <- Hoff2. auto.
Qed.

End TwoFiles.

(** X13: the two-file writer logs the same lines as the single-file writer:
    every skipped node and every skipped geometry, in scene order, then
    "Finished writing OBJ"; the log does not depend on the property
    database. *)
Theorem Writer2_log (skipNormals : bool) (threshold : N) (imf : IScene)
    (propdb : option PropDbReader) :
  log (Writer2.writeWith skipNormals threshold imf propdb) =
    skipLog imf (sceneOrder imf) ++ ["Finished writing OBJ"] /\
  log (Writer2.writeWith skipNormals threshold imf propdb) =
    Writer1.log (Writer1.writeWith skipNormals threshold imf).
Proof.
  assert (H : log (Writer2.writeWith skipNormals threshold imf propdb) =
              skipLog imf (sceneOrder imf) ++ ["Finished writing OBJ"]).
  { unfold Writer2.writeWith. cbn [log].
    destruct (Writer2_loop skipNormals threshold imf propdb (getRootScale imf)
                (sceneOrder imf) (Writer2.mkState 1 1 [] [] "" "" [])) as (Hlog & _).
    unfold sceneOrder in Hlog. rewrite Hlog. reflexivity. }
  split; [ exact H | ].
  rewrite H. unfold Writer1.writeWith. cbn [Writer1.log].
  destruct (Writer1_loop skipNormals threshold imf (getRootScale imf) (sceneOrder imf)
              (mkWState "" [] 1 [])) as (Hlog & _).
  unfold sceneOrder in Hlog. rewrite Hlog. reflexivity.
Qed.

(** X14: each file of the two-file writer holds, for the object nodes with a
    mesh of its own classification in scene order, the line "o <GroupKey>"
    and the lines of the mesh, at an offset that starts at 1 and advances
    only with the meshes of that file; one more separator closes a file only
    if more lines than the threshold were written to it. *)
Theorem Writer2_content (skipNormals : bool) (threshold : N) (imf : IScene)
    (propdb : option PropDbReader) :
  let w := Writer2.writeWith skipNormals threshold imf propdb in
  let lines sel :=
    perNodeLines skipNormals imf (getRootScale imf) (groupKey propdb) sel 1
                 (sceneOrder imf) in
  let regular := lines (fun node => negb (isOpening propdb node)) in
  let opening := lines (isOpening propdb) in
  (exists closed,
     output_obj w = content regular closed /\
     (closed = true -> (threshold < N.of_nat (length regular))%N)) /\
  (exists closed,
     openings_obj w = content opening closed /\
     (closed = true -> (threshold < N.of_nat (length opening))%N)).
Proof.
  intros w lines regular opening. subst w. unfold Writer2.writeWith.
  cbn [output_obj openings_obj].
  destruct (Writer2_loop skipNormals threshold imf propdb (getRootScale imf)
              (sceneOrder imf) (Writer2.mkState 1 1 [] [] "" "" [])) as (_ & Hreg & Hop).
  split.
  - apply (streamed_content threshold _ (regularView _)).
    apply (Hreg [] (streamed_init threshold 1 [])).
  - apply (streamed_content threshold _ (openingView _)).
    apply (Hop [] (streamed_init threshold 1 [])).
Qed.

Lemma Writer2_content_witness :
  output_obj (Writer2.write false Samples.sceneGroups (Some Samples.propdbGroups)) =
    JS.join JS.LF ["o GUID-A"; "v 0 0 0"; "v 1 0 0"; "v 0 1 0"; "f 1 2 3";
                   "o GUID-A"; "v 0 0 0"; "v 1 0 0"; "v 0 1 0"; "f 4 5 6"] /\
  openings_obj (Writer2.write false Samples.sceneGroups (Some Samples.propdbGroups)) =
    JS.join JS.LF ["o dbid-2"; "v 0 0 0"; "v 1 0 0"; "v 0 1 0"; "f 1 2 3"].
Proof.
  destruct (Writer2_content false 50000 Samples.sceneGroups (Some Samples.propdbGroups))
    as ((c1 & Hf1 & Hc1) & (c2 & Hf2 & Hc2)).
  unfold Writer2.write. rewrite Hf1, Hf2. split.
  - destruct c1; [ | reflexivity ].
    specialize (Hc1 eq_refl). vm_compute in Hc1. discriminate Hc1.
  - destruct c2; [ | reflexivity ].
    specialize (Hc2 eq_refl). vm_compute in Hc2. discriminate Hc2.
Defined.

Lemma perNodeLines_none skipNormals imf rootScale name sel offset l :
  (forall node, sel node = false) ->
  perNodeLines skipNormals imf rootScale name sel offset l = [].
Proof.
  intros Hsel. induction l as [| i l IH]; [ reflexivity | ].
  cbn [perNodeLines]. unfold written.
  destruct (getNode imf i) as [node |]; [ | exact IH ].
  destruct (getGeometry imf (geometry node)); [ | exact IH ].
  rewrite Hsel. exact IH.
Qed.

(** X15: without a property database the two-file writer leaves
    [openings.obj] empty, whatever the scene and the threshold. *)
Theorem Writer2_without_database (skipNormals : bool) (threshold : N) (imf : IScene) :
  openings_obj (Writer2.writeWith skipNormals threshold imf None) = "".
Proof.
  unfold Writer2.writeWith. cbn [openings_obj].
  destruct (Writer2_loop skipNormals threshold imf None (getRootScale imf)
              (sceneOrder imf) (Writer2.mkState 1 1 [] [] "" "" [])) as (_ & _ & Hop).
  specialize (Hop [] (streamed_init threshold 1 [])).
  rewrite perNodeLines_none in Hop by reflexivity.
  destruct (streamed_small threshold _ _ Hop) as [Hfile Hout]; [ simpl; lia | ].
  cbn [file output openingView] in Hfile, Hout. unfold sceneOrder in *.
  rewrite Hfile, Hout. reflexivity.
Qed.

Section Refactoring.

Variable skipNormals : bool.
Variable threshold : N.
Variable imf : IScene.
Variable propdb : option PropDbReader.
Variable rootScale : Q.

Local Abbreviation body := (Writer2.write_body skipNormals threshold imf propdb rootScale).
Local Abbreviation group_step := (writeGroup skipNormals threshold imf rootScale).
Local Abbreviation node_step := (writeNode skipNormals threshold imf rootScale).

Lemma same_buffer_flush a b :
  same_buffer a b -> same_buffer (flushIfFull threshold a) (flushIfFull threshold b).
Proof.
  intros (Hf & Ho & Hi). unfold flushIfFull. rewrite Ho.
  destruct (_ <? _)%N; unfold same_buffer; cbn [file output indexOffset];
    rewrite ?Hf, ?Ho, ?Hi; auto.
Qed.

Lemma within_flush st : within threshold (flushIfFull threshold st).
Proof.
  unfold within, flushIfFull.
  destruct (N.ltb_spec threshold (N.of_nat (length (output st)))); cbn [output length]; lia.
Qed.

Lemma flush_within st : within threshold st -> flushIfFull threshold st = st.
Proof. apply flushIfFull_within. Qed.

Lemma pushNode_new k i m :
  ~ In k (map fst m) -> pushNode k i m = m ++ [(k, [i])].
Proof.
  induction m as [| [k' ns] m IH]; simpl; intros Hk; [ reflexivity | ].
  destruct (String.eqb_spec k' k) as [-> | _]; [ tauto | ].
  rewrite IH by tauto. reflexivity.
Qed.

Lemma grouped_singles es : List.NoDup (map fst es) -> grouped es = singles es.
Proof.
  induction es as [| [k i] es IH] using rev_ind; intros Hnd; [ reflexivity | ].
  rewrite map_app in Hnd. cbn [map fst] in Hnd.
  apply List.NoDup_remove in Hnd as [Hnd Hk]. rewrite app_nil_r in Hnd, Hk.
  rewrite grouped_snoc, IH by assumption.
  rewrite pushNode_new.
  - unfold singles. rewrite map_app. reflexivity.
  - unfold singles. rewrite map_map. cbn [fst]. assumption.
Qed.

Lemma skipLog_meshesOnly l : meshesOnly imf l -> skipLog imf l = skipped imf l.
Proof.
  unfold skipLog, skipped. induction 1 as [| i l Hi _ IH]; [ reflexivity | ].
  cbn [flat_map]. rewrite IH.
  destruct (getNode imf i) as [node | kind] eqn:Hn; [ | reflexivity ].
  destruct (Hi (ex_intro _ node Hn)) as (node' & g & Hn' & Hg).
  assert (node' = node) by congruence. subst node'. rewrite Hg. reflexivity.
Qed.

(** The loop of [Writer2] and two runs over one group per node go through
    the same files, buffers and offsets. *)
Lemma Writer2_simulates l :
  forall st sr so,
    meshesOnly imf l -> agrees threshold st sr so ->
    exists sr' so',
      forEach group_step (singles (entriesOf imf propdb false l)) sr = Done sr' /\
      forEach group_step (singles (entriesOf imf propdb true l)) so = Done so' /\
      agrees threshold (Writer2.loop skipNormals threshold imf propdb rootScale l st) sr' so'.
Proof.
  induction l as [| i l IH]; intros st sr so Hmesh Hag.
  - exists sr, so. auto.
  - apply Forall_cons_iff in Hmesh as [Hi Hmesh].
    unfold Writer2.loop. cbn [fold_left]. fold (Writer2.loop skipNormals threshold imf propdb rootScale l (body st i)).
    unfold entriesOf. cbn [flat_map].
    fold (entriesOf imf propdb false l). fold (entriesOf imf propdb true l).
    destruct (getNode imf i) as [node | kind] eqn:Hn.
    + destruct (Hi (ex_intro _ node Hn)) as (node' & g & Hn' & Hg).
      assert (node' = node) by congruence. subst node'.
      destruct Hag as ((Hrf & Hro & Hri) & (Hof & Hoo & Hoi) & Hrw & Howi).
      unfold Writer2.write_body. rewrite Hn, Hg. rewrite groupKey_spec.
      destruct (isOpening propdb node) eqn:Hcls; cbn [Bool.eqb app singles map fst snd].
      * set (so0 := mkWState (file so) (output so ++ ["o " +:+ GroupKey propdb node])
                             (indexOffset so) (logged so)).
        destruct (writeNode_mesh skipNormals threshold imf rootScale i node g so0 Hn Hg)
          as (Hstep & Hlines & Hcount).
        match goal with |- context [Writer2.loop _ _ _ _ _ l ?s] => set (st' := s) end.
        destruct (IH st' sr (flushIfFull threshold (pushed skipNormals imf rootScale i so0)))
          as (sr' & so' & Hr' & Ho' & Hag'); [ assumption | | ].
        { subst st'. split; [ | split; [ | split ] ].
          - rewrite regularView_flushOpening, regularView_flushRegular.
            rewrite flush_within by exact Hrw. split; [ exact Hrf | split; [ exact Hro | exact Hri ] ].
          - rewrite openingView_flushOpening, openingView_flushRegular.
            apply same_buffer_flush. unfold pushed, same_buffer, openingView.
            cbn [file output indexOffset Writer2.openingObjFile Writer2.openingOutput
                 Writer2.openingIndexOffset] in *.
            rewrite Hlines, Hcount. subst so0. cbn [file output indexOffset].
            rewrite Hof, Hoo, Hoi, <- app_assoc. auto.
          - rewrite regularView_flushOpening, regularView_flushRegular.
            rewrite flush_within by exact Hrw. exact Hrw.
          - rewrite openingView_flushOpening. apply within_flush. }
        exists sr', so'. split; [ exact Hr' | split; [ | exact Hag' ] ].
        cbn [forEach]. unfold writeGroup at 1. fold so0. cbn [forEach].
        rewrite Hstep. cbn [andThen]. exact Ho'.
      * set (sr0 := mkWState (file sr) (output sr ++ ["o " +:+ GroupKey propdb node])
                             (indexOffset sr) (logged sr)).
        destruct (writeNode_mesh skipNormals threshold imf rootScale i node g sr0 Hn Hg)
          as (Hstep & Hlines & Hcount).
        match goal with |- context [Writer2.loop _ _ _ _ _ l ?s] => set (st' := s) end.
        destruct (IH st' (flushIfFull threshold (pushed skipNormals imf rootScale i sr0)) so)
          as (sr' & so' & Hr' & Ho' & Hag'); [ assumption | | ].
        { subst st'. split; [ | split; [ | split ] ].
          - rewrite regularView_flushOpening, regularView_flushRegular.
            apply same_buffer_flush. unfold pushed, same_buffer, regularView.
            cbn [file output indexOffset Writer2.objFile Writer2.regularOutput
                 Writer2.regularIndexOffset] in *.
            rewrite Hlines, Hcount. subst sr0. cbn [file output indexOffset].
            rewrite Hrf, Hro, Hri, <- app_assoc. auto.
          - rewrite openingView_flushOpening, openingView_flushRegular.
            rewrite flush_within by exact Howi. split; [ exact Hof | split; [ exact Hoo | exact Hoi ] ].
          - rewrite regularView_flushOpening, regularView_flushRegular.
            apply within_flush.
          - rewrite openingView_flushOpening, openingView_flushRegular.
            rewrite flush_within by exact Howi. exact Howi. }
        exists sr', so'. split; [ | split; [ exact Ho' | exact Hag' ] ].
        cbn [forEach]. unfold writeGroup at 1. fold sr0. cbn [forEach].
        rewrite Hstep. cbn [andThen]. exact Hr'.
    + unfold Writer2.write_body. rewrite Hn. cbn [app].
      apply IH; [ assumption | ]. exact Hag.
Qed.

End Refactoring.

(** X16: when every object node of the scene has a mesh and no two object
    nodes of the same classification share a GroupKey, [write] and the
    two-file writer leave the same two files and the same log. *)
Theorem write_agrees_with_Writer2 (skipNormals : bool) (imf : IScene)
    (propdb : option PropDbReader) :
  meshesOnly imf (sceneOrder imf) ->
  List.NoDup (map fst (entriesOf imf propdb false (sceneOrder imf))) ->
  List.NoDup (map fst (entriesOf imf propdb true (sceneOrder imf))) ->
  write skipNormals imf propdb = inr (Writer2.write skipNormals imf propdb).
Proof.
  intros Hmesh Hreg Hop.
  destruct (write_completes skipNormals imf propdb)
    as (regular & opening & Hr & Ho & Hw).
  rewrite Hw. clear Hw. f_equal.
  rewrite getObjectNodes_grouped in Hr, Ho |- *.
  cbn [buildingNodes openingNodes messages] in Hr, Ho |- *.
  rewrite grouped_singles in Hr, Ho by assumption.
  set (log0 := [] ++ skipped imf (sceneOrder imf)) in *.
  destruct (Writer2_simulates skipNormals 50000 imf propdb (getRootScale imf)
              (sceneOrder imf) (Writer2.mkState 1 1 [] [] "" "" [])
              (mkWState "" [] 1 log0) (mkWState "" [] 1 log0) Hmesh)
    as (sr & so & Hsr & Hso & (Hrf & Hro & _) & (Hof & Hoo & _) & _).
  { unfold agrees, same_buffer, within. cbn.
    split; [ auto | split; [ auto | split; lia ] ]. }
  unfold writeObjects, writeObjectsWith in Hr, Ho.
  rewrite Hsr in Hr. rewrite Hso in Ho. cbn [andThen] in Hr, Ho.
  injection Hr as <-. injection Ho as <-.
  unfold Writer2.write, Writer2.writeWith. cbn [file].
  destruct (Writer2_loop skipNormals 50000 imf propdb (getRootScale imf)
              (sceneOrder imf) (Writer2.mkState 1 1 [] [] "" "" [])) as (Hlog & _).
  unfold sceneOrder in *.
  rewrite Hlog, Hrf, Hro, Hof, Hoo.
  cbn [regularView openingView file output Writer2.logLines].
  rewrite (skipLog_meshesOnly imf _ Hmesh). reflexivity.
Qed.

Lemma write_agrees_with_Writer2_witness :
  write false Samples.scene7 None = inr (Writer2.write false Samples.scene7 None).
Proof.
  apply (write_agrees_with_Writer2 false Samples.scene7 None).
  - repeat constructor. intros _.
    exists (mkObjectNode 7 None 0), Samples.triangle. split; reflexivity.
  - vm_compute. repeat constructor. intros [].
  - vm_compute. constructor.
Defined.

(** Shared GroupKeys break the agreement: [write] merges the nodes under one
    header, the two-file writer repeats the header. *)
Lemma write_differs_from_Writer2_on_shared_keys :
  write false Samples.sceneGroups (Some Samples.propdbGroups) <>
    inr (Writer2.write false Samples.sceneGroups (Some Samples.propdbGroups)).
Proof. vm_compute. discriminate. Qed.

(** ** [loadGlobalId] *)

Section GlobalIds.

Context {K : Type} `{EqDecision K}.
Variable Number : string -> K.

Local Abbreviation load es :=
  (fold_left (fun ids e => Writer2.Map_set (Writer2.entryKey Number e)
                                           (Writer2.entryValue e) ids) es []).

Lemma Map_get_set_eq (k : K) v (m : Writer2.IdMap (K := K)) :
  Writer2.Map_get k (Writer2.Map_set k v m) = Some v.
Proof.
  induction m as [| [k' v'] m IH]; simpl.
  - rewrite decide_True by reflexivity. reflexivity.
  - destruct (decide (k' = k)) as [-> | Hne]; simpl.
    + rewrite decide_True by reflexivity. reflexivity.
    + rewrite decide_False by assumption. exact IH.
Qed.

Lemma Map_get_set_ne (k k' : K) v (m : Writer2.IdMap (K := K)) :
  k' <> k -> Writer2.Map_get k (Writer2.Map_set k' v m) = Writer2.Map_get k m.
Proof.
  intros Hne. induction m as [| [k0 v0] m IH]; simpl.
  - rewrite decide_False by assumption. reflexivity.
  - destruct (decide (k0 = k')) as [-> | Hne0]; simpl.
    + rewrite !decide_False by assumption. reflexivity.
    + destruct (decide (k0 = k)); [ reflexivity | exact IH ].
Qed.

Lemma Map_set_nonempty (k : K) v (m : Writer2.IdMap (K := K)) :
  Writer2.Map_set k v m <> [].
Proof.
  destruct m as [| [k0 v0] m]; simpl; [ discriminate | ].
  destruct (decide (k0 = k)); discriminate.
Qed.

Lemma Map_set_keys (k : K) v (m : Writer2.IdMap (K := K)) :
  List.NoDup (map fst m) ->
  List.NoDup (map fst (Writer2.Map_set k v m)) /\
  (forall k', In k' (map fst (Writer2.Map_set k v m)) <-> k' = k \/ In k' (map fst m)).
Proof.
  induction m as [| [k0 v0] m IH]; simpl; intros Hnd.
  - split; [ repeat constructor; intros [] | intros k'; intuition congruence ].
  - apply List.NoDup_cons_iff in Hnd as [Hk0 Hnd].
    destruct (decide (k0 = k)) as [-> | Hne]; simpl.
    + split; [ constructor; assumption | intros k'; intuition congruence ].
    + destruct (IH Hnd) as [Hnd' Hin]. split.
      * constructor; [ | assumption ]. rewrite Hin. intuition congruence.
      * intros k'. rewrite Hin. intuition congruence.
Qed.

Lemma load_keys es : List.NoDup (map fst (load es)).
Proof.
  induction es as [| e es IH] using rev_ind; [ constructor | ].
  rewrite fold_left_app. simpl. apply Map_set_keys, IH.
Qed.

Lemma load_last_wins es k :
  Writer2.Map_get k (load es) =
    Writer2.entryValue <$>
      last (List.filter (fun e => bool_decide (Writer2.entryKey Number e = k)) es).
Proof.
  induction es as [| e es IH] using rev_ind; [ reflexivity | ].
  rewrite fold_left_app, List.filter_app. simpl.
  destruct (decide (Writer2.entryKey Number e = k)) as [<- | Hne].
  - rewrite Map_get_set_eq, bool_decide_eq_true_2 by reflexivity.
    rewrite last_snoc. reflexivity.
  - rewrite Map_get_set_ne, bool_decide_eq_false_2 by assumption.
    rewrite app_nil_r. exact IH.
Qed.

(** X17: in the map of [loadGlobalId] a key is bound to the second field of
    the last line whose first field converts to it (to undefined when that
    line has one field), and to nothing when no line converts to it; no key
    occurs twice. *)
Theorem loadGlobalId_last_line_wins (text : string) (k : K) :
  Writer2.Map_get k (Writer2.loadGlobalId Number text) =
    Writer2.entryValue <$>
      last (List.filter (fun e => bool_decide (Writer2.entryKey Number e = k))
                        (Writer2.entries text)) /\
  List.NoDup (map fst (Writer2.loadGlobalId Number text)).
Proof. split; [ apply load_last_wins | apply load_keys ]. Qed.

Lemma split_nonempty sep s : JSText.split sep s <> [].
Proof.
  destruct s as [| c s]; simpl; [ discriminate | ].
  destruct (Ascii.eqb c sep); [ discriminate | ].
  destruct (JSText.split sep s); discriminate.
Qed.

Lemma split_trailing sep s :
  JSText.split sep (s +:+ String sep "") = JSText.split sep s ++ [""].
Proof.
  induction s as [| c s IH].
  - simpl. rewrite Ascii.eqb_refl. reflexivity.
  - rewrite append_cons. simpl. rewrite IH.
    destruct (Ascii.eqb c sep); [ reflexivity | ].
    pose proof (split_nonempty sep s).
    destruct (JSText.split sep s); [ contradiction | reflexivity ].
Qed.

(** X18: the map of [loadGlobalId] is never empty, and a text that is empty
    or ends with a line feed binds the key of the empty string (0, as
    JavaScript converts it) to undefined. *)
Theorem loadGlobalId_trailing_line (text : string) :
  Writer2.loadGlobalId Number text <> [] /\
  (text = "" \/ (exists s, text = s +:+ JS.LF) ->
   Writer2.Map_get (Number "") (Writer2.loadGlobalId Number text) = Some None).
Proof.
  split.
  - unfold Writer2.loadGlobalId, Writer2.entries.
    pose proof (split_nonempty JSText.LFchar text) as Hne.
    destruct (JSText.split JSText.LFchar text) as [| l ls] using rev_ind;
      [ contradiction | ].
    rewrite map_app, fold_left_app. simpl. apply Map_set_nonempty.
  - intros [-> | (s & ->)].
    + simpl. rewrite decide_True by reflexivity. reflexivity.
    + unfold Writer2.loadGlobalId, Writer2.entries, JS.LF.
      fold JSText.LFchar. rewrite split_trailing, map_app, fold_left_app. simpl.
      apply Map_get_set_eq.
Qed.

End GlobalIds.

Lemma loadGlobalId_trailing_line_witness :
  Writer2.Map_get 0%N
    (Writer2.loadGlobalId digitsToN ("12 abc" +:+ JS.LF +:+ "7 x" +:+ JS.LF)) = Some None.
Proof.
  apply (loadGlobalId_trailing_line digitsToN ("12 abc" +:+ JS.LF +:+ "7 x" +:+ JS.LF)).
  right. exists ("12 abc" +:+ JS.LF +:+ "7 x"). reflexivity.
Defined.

(** Two lines for the key 12: the later one is kept, at the place of the
    first. *)
Lemma loadGlobalId_example :
  Writer2.loadGlobalId digitsToN
    ("12 abc" +:+ JS.LF +:+ "7 x y" +:+ JS.LF +:+ "12 def" +:+ JS.LF +:+ "9") =
  [(12%N, Some "def"); (7%N, Some "x"); (9%N, None)].
Proof. reflexivity. Qed.

Lemma writeObjectsWith_outcome_witness :
  exists st,
    writeObjectsWith false 50000 Samples.sceneGroups 1 [("a", [0; 1; 2]%nat)] [] =
      Thrown "Node kind 0 should have been excluded" st /\
    file st = "" /\
    output st = ["o a"; "v 0 0 0"; "v 1 0 0"; "v 0 1 0"; "f 1 2 3"].
Proof.
  destruct (proj2 (writeObjectsWith_outcome false 50000 Samples.sceneGroups 1
                     [("a", [0; 1; 2]%nat)] []))
    as (st & flushed & Hthrown & _ & _ & _ & _ & Hsmall).
  exists st. split; [ exact Hthrown | ].
  apply Hsmall. vm_compute. discriminate.
Defined.

(** * The buffer at a comparison with the threshold *)



Section Pending.

Variable skipNormals : bool.
Variable threshold : N.
Variable scene : IScene.
Variable rootScale : Q.

Local Abbreviation node_step := (writeNode skipNormals threshold scene rootScale).
Local Abbreviation group_step := (writeGroup skipNormals threshold scene rootScale).
Local Abbreviation room st h :=
  (N.of_nat (length (output st)) <= threshold + N.of_nat h)%N.





End Pending.




(** The same with a threshold of 5 over the single triangle of [scene7]:
    one flush of 10 lines, the mesh having 4. *)
Lemma buffer_exceeds_small_threshold :
  writeObjectsWith false 5 Samples.scene7 1 [("a", [0%nat]); ("b", [0%nat])] [] =
    Done (mkWState
            (JS.join JS.LF ["o a"; "v 0 0 0"; "v 1 0 0"; "v 0 1 0"; "f 1 2 3";
                            "o b"; "v 0 0 0"; "v 1 0 0"; "v 0 1 0"; "f 4 5 6"] +:+ JS.LF)
            [] 7 []).
Proof. reflexivity. Qed.
